(** * Sponsorship workflow engine: the task store and its handlers

    A shallow embedding of [src/main.py]: the in-memory task store, the
    registered-sponsor set, the three request handlers ([sync_tasks],
    [list_tasks], [update_task_by_fields]) and the background job
    [periodic_sync], followed by the properties of the specification that
    concern them. *)

From stdpp Require Import gmap strings list.

Local Open Scope string_scope.
Local Open Scope list_scope.

(** ** Data model *)

(** A task is a Python dict with five string entries; the projections carry
    the dict keys. *)
Record task := Task {
  sponsor_id : string;
  source : string;
  name : string;
  due_date : string;
  status : string
}.

#[global] Instance task_eq_dec : EqDecision task.
Proof. solve_decision. Defined.

(** [task['status'] = new_status] *)
Definition set_status (t : task) (new_status : string) : task :=
  {| sponsor_id := sponsor_id t; source := source t; name := name t;
     due_date := due_date t; status := new_status |}.

(** The two module-level globals. *)
Record state := State {
  TASK_STORE : list task;
  SYNC_SPONSORS : gset string
}.

Definition initial_state : state :=
  {| TASK_STORE := []; SYNC_SPONSORS := ∅ |}.

(** What a handler sees of the HTTP request: the headers, the JSON body
    ([None] when [get_json()] returns [None]) and the query arguments.  JSON
    bodies are objects with string values, which is what the data model
    documents; a body that is not an object, a value that is not a string and
    a request that Flask itself refuses are not represented. *)
Record request := Request {
  headers : gmap string string;
  get_json : option (gmap string string);
  args : gmap string string
}.

(** The JSON bodies the handlers answer with. *)
Inductive body :=
  | Tasks (tasks : list task)
  | Updated (updated : bool).

(** ** Handlers as state-and-exception computations

    A handler runs against the globals and either returns or raises.  A raise
    does not roll anything back: the state that comes with it is the state at
    the moment of the raise. *)

Inductive failure :=
  | HTTPException (code : Z) (description : string)
  | Uncaught (e : string).

Inductive outcome (A : Type) :=
  | Return (a : A)
  | Raise (f : failure).
Arguments Return {A} a.
Arguments Raise {A} f.

Definition handler (A : Type) : Type := state → outcome A * state.

Definition ret {A} (a : A) : handler A := λ st, (Return a, st).

Definition bind {A B} (m : handler A) (k : A → handler B) : handler B :=
  λ st, match m st with
        | (Return a, st') => k a st'
        | (Raise f, st') => (Raise f, st')
        end.

Notation "x <~ m ;; k" := (bind m (λ x, k))
  (at level 100, m at next level, right associativity,
   format "'[v' x  <~  m  ;;  '/' k ']'").
Notation "m ;;; k" := (bind m (λ _, k))
  (at level 100, right associativity, format "'[v' m  ;;;  '/' k ']'").

(** [flask.abort(code, description)] *)
Definition abort {A} (code : Z) (description : string) : handler A :=
  λ st, (Raise (HTTPException code description), st).

(** A source adapter either raises or returns its list of tasks. *)
Definition adapter : Type := string → string + list task.

Definition call (r : string + list task) : handler (list task) :=
  λ st, match r with
        | inl e => (Raise (Uncaught e), st)
        | inr tasks => (Return tasks, st)
        end.

(** Reading the global, rebinding it ([TASK_STORE = ...]), extending the list
    it is bound to ([TASK_STORE.extend(...)]) and [SYNC_SPONSORS.add(...)]. *)
Definition read_store : handler (list task) :=
  λ st, (Return (TASK_STORE st), st).

Definition rebind_store (l : list task) : handler unit :=
  λ st, (Return (), {| TASK_STORE := l; SYNC_SPONSORS := SYNC_SPONSORS st |}).

Definition extend_store (tasks : list task) : handler unit :=
  λ st, (Return (), {| TASK_STORE := TASK_STORE st ++ tasks;
                       SYNC_SPONSORS := SYNC_SPONSORS st |}).

Definition add_sponsor (s : string) : handler unit :=
  λ st, (Return (), {| TASK_STORE := TASK_STORE st;
                       SYNC_SPONSORS := {[ s ]} ∪ SYNC_SPONSORS st |}).

(** Python truthiness of a value that is [None] or a [str]: [None] and the
    empty string are falsy.  The result is the string when it is truthy. *)
Definition truthy (v : option string) : option string :=
  match v with
  | Some (String _ _ as s) => Some s
  | _ => None
  end.

(** ** Authentication *)

Definition API_KEY : string := "secret-token-123".

Definition check_api_key (request : request) : handler unit :=
  let key := headers request !! "X-API-KEY" in
  if decide (key ≠ Some API_KEY)
  then abort 401 "Invalid or missing API key"
  else ret ().

(** ** The handlers, over arbitrary source adapters *)

Module Engine.
Section Engine.

Variables salesforce asana google_calendar : adapter.

Definition sync_tasks (request : request) : handler (body * Z) :=
  check_api_key request ;;;
  let data := default ∅ (get_json request) in
  match truthy (data !! "sponsor_id") with
  | None => abort 400 "Missing sponsor_id"
  | Some sponsor =>
      add_sponsor sponsor ;;;
      let tasks := [] in
      fetched <~ call (salesforce sponsor) ;;
      let tasks := tasks ++ fetched in
      fetched <~ call (asana sponsor) ;;
      let tasks := tasks ++ fetched in
      fetched <~ call (google_calendar sponsor) ;;
      let tasks := tasks ++ fetched in
      store <~ read_store ;;
      rebind_store (filter (λ t, sponsor_id t ≠ sponsor) store) ;;;
      extend_store tasks ;;;
      ret (Tasks tasks, 200%Z)
  end.

Fixpoint periodic_sync_loop (sponsors : list string) : handler unit :=
  match sponsors with
  | [] => ret ()
  | sponsor :: sponsors =>
      let tasks := [] in
      fetched <~ call (salesforce sponsor) ;;
      let tasks := tasks ++ fetched in
      fetched <~ call (asana sponsor) ;;
      let tasks := tasks ++ fetched in
      fetched <~ call (google_calendar sponsor) ;;
      let tasks := tasks ++ fetched in
      store <~ read_store ;;
      rebind_store (filter (λ t, sponsor_id t ≠ sponsor) store) ;;;
      extend_store tasks ;;;
      periodic_sync_loop sponsors
  end.

(** [for sponsor_id in list(SYNC_SPONSORS)]: the loop runs over a snapshot
    of the set.  Python fixes no order for it; here it is the order of
    [elements], and what is proved of the loop is proved for every list. *)
Definition periodic_sync : handler unit :=
  λ st, periodic_sync_loop (elements (SYNC_SPONSORS st)) st.

End Engine.
End Engine.

(** ** Handlers that do not call the adapters *)

Definition list_tasks (request : request) : handler (body * Z) :=
  check_api_key request ;;;
  let sponsor := args request !! "sponsor_id" in
  let status_arg := args request !! "status" in
  results <~ read_store ;;
  let results :=
    match truthy sponsor with
    | Some sponsor => filter (λ t, sponsor_id t = sponsor) results
    | None => results
    end in
  let results :=
    match truthy status_arg with
    | Some status_arg => filter (λ t, status t = status_arg) results
    | None => results
    end in
  ret (Tasks results, 200%Z).

(** The [for task in TASK_STORE] loop of [update_task_by_fields]: the tasks
    are updated in place, [matched] is the flag the loop carries. *)
Fixpoint update_loop (sponsor src nm new_status : string)
    (store : list task) (matched : bool) : list task * bool :=
  match store with
  | [] => ([], matched)
  | t :: store =>
      if decide (sponsor_id t = sponsor ∧ source t = src ∧ name t = nm)
      then
        let '(store', matched) :=
          update_loop sponsor src nm new_status store true in
        (set_status t new_status :: store', matched)
      else
        let '(store', matched) :=
          update_loop sponsor src nm new_status store matched in
        (t :: store', matched)
  end.

Definition update_task_by_fields (request : request) : handler (body * Z) :=
  check_api_key request ;;;
  let data := default ∅ (get_json request) in
  let sponsor := data !! "sponsor_id" in
  let src := data !! "source" in
  let nm := data !! "name" in
  let new_status := data !! "status" in
  match truthy sponsor, truthy src, truthy nm, truthy new_status with
  | Some sponsor, Some src, Some nm, Some new_status =>
      store <~ read_store ;;
      let '(store', matched) :=
        update_loop sponsor src nm new_status store false in
      rebind_store store' ;;;
      if negb matched
      then abort 404 "No matching task found"
      else ret (Updated true, 200%Z)
  | _, _, _, _ => abort 400 "Must include sponsor_id, source, name, and status"
  end.

(** ** The mock integrations and the program as deployed *)

Definition get_salesforce_tasks (sponsor : string) : list task :=
  [ Task sponsor "salesforce" "Finalize contract" "2025-08-01" "pending";
    Task sponsor "salesforce" "Upload logo" "2025-08-05" "pending" ].

Definition get_asana_tasks (sponsor : string) : list task :=
  [ Task sponsor "asana" "Post campaign assets" "2025-07-30" "done";
    Task sponsor "asana" "Review creative brief" "2025-08-03" "pending" ].

Definition get_google_calendar_tasks (sponsor : string) : list task :=
  [ Task sponsor "google_calendar" "Activation deadline" "2025-08-10" "pending";
    Task sponsor "google_calendar" "Post-event report" "2025-08-20" "pending" ].

(** A Python function that returns without raising, as an adapter. *)
Definition returns (f : string → list task) : adapter := λ s, inr (f s).

Definition sync_tasks : request → handler (body * Z) :=
  Engine.sync_tasks (returns get_salesforce_tasks) (returns get_asana_tasks)
    (returns get_google_calendar_tasks).

Definition periodic_sync_loop : list string → handler unit :=
  Engine.periodic_sync_loop (returns get_salesforce_tasks)
    (returns get_asana_tasks) (returns get_google_calendar_tasks).

Definition periodic_sync : handler unit :=
  Engine.periodic_sync (returns get_salesforce_tasks) (returns get_asana_tasks)
    (returns get_google_calendar_tasks).

(** ** Vocabulary of the statements *)

(** The request carries the right API key. *)
Definition authorized (r : request) : Prop :=
  headers r !! "X-API-KEY" = Some API_KEY.

(** The JSON object a handler works on: [request.get_json() or {}]. *)
Definition json_data (r : request) : gmap string string :=
  default ∅ (get_json r).

(** A field is missing or empty. *)
Definition missing_or_empty (v : option string) : Prop :=
  v = None ∨ v = Some "".

(** The records of one sponsor, in store order. *)
Definition records_of (s : string) (store : list task) : list task :=
  filter (λ t, sponsor_id t = s) store.

(** The key of [update_task_by_fields]. *)
Definition matches (sponsor src nm : string) (t : task) : Prop :=
  sponsor_id t = sponsor ∧ source t = src ∧ name t = nm.

#[global] Instance matches_dec sponsor src nm t :
  Decision (matches sponsor src nm t).
Proof. unfold matches. apply _. Defined.

(** What the three adapter calls of one sync amount to: the first exception
    in call order, or the concatenation of the three results. *)
Definition fetch (salesforce asana google_calendar : adapter)
    (s : string) : string + list task :=
  match salesforce s with
  | inl e => inl e
  | inr a =>
      match asana s with
      | inl e => inl e
      | inr b =>
          match google_calendar s with
          | inl e => inl e
          | inr c => inr (a ++ b ++ c)
          end
      end
  end.

(** An adapter call made during the sync of [s] raises [e]: a later adapter
    is only called once the earlier ones have returned. *)
Inductive adapter_failure (salesforce asana google_calendar : adapter)
    (s e : string) : Prop :=
  | salesforce_fails :
      salesforce s = inl e →
      adapter_failure salesforce asana google_calendar s e
  | asana_fails a :
      salesforce s = inr a → asana s = inl e →
      adapter_failure salesforce asana google_calendar s e
  | google_calendar_fails a b :
      salesforce s = inr a → asana s = inr b → google_calendar s = inl e →
      adapter_failure salesforce asana google_calendar s e.

(** The store after the two statements of the replace. *)
Definition replaced (s : string) (tasks : list task) (st : state) : state :=
  {| TASK_STORE := filter (λ t, sponsor_id t ≠ s) (TASK_STORE st) ++ tasks;
     SYNC_SPONSORS := SYNC_SPONSORS st |}.

Definition registered (s : string) (st : state) : state :=
  {| TASK_STORE := TASK_STORE st; SYNC_SPONSORS := {[ s ]} ∪ SYNC_SPONSORS st |}.

(** The operations of the program, and a run of them. *)
Inductive operation :=
  | ManualSync (r : request)
  | ListTasks (r : request)
  | UpdateStatus (r : request)
  | PeriodicRefresh.

Definition run (op : operation) (st : state) : state :=
  match op with
  | ManualSync r => snd (sync_tasks r st)
  | ListTasks r => snd (list_tasks r st)
  | UpdateStatus r => snd (update_task_by_fields r st)
  | PeriodicRefresh => snd (periodic_sync st)
  end.

Definition run_all (ops : list operation) (st : state) : state :=
  foldl (λ st op, run op st) st ops.

(** How often a sponsor occurs in a snapshot of the registered set. *)
Definition occurrences (s : string) (X : gset string) : nat :=
  length (filter (λ x, x = s) (elements X)).

(** A task passes two optional filters: a sponsor filter [Some s] asks for
    that sponsor_id, a status filter [Some s] for that status, and [None] asks
    for nothing. *)
Definition passes (sponsor status_arg : option string) (t : task) : Prop :=
  match sponsor with Some s => sponsor_id t = s | None => True end ∧
  match status_arg with Some s => status t = s | None => True end.

#[global] Instance passes_dec sponsor status_arg t :
  Decision (passes sponsor status_arg t).
Proof. unfold passes. destruct sponsor, status_arg; apply _. Defined.

(** The store once every task under the key has its status assigned. *)
Definition assign_status (sponsor src nm new_status : string)
    (store : list task) : list task :=
  (λ t, if decide (matches sponsor src nm t)
        then set_status t new_status else t) <$> store.

(** Example requests. *)
Definition api_headers : gmap string string := {[ "X-API-KEY" := API_KEY ]}.

Definition sync_request (s : string) : request :=
  {| headers := api_headers;
     get_json := Some {[ "sponsor_id" := s ]};
     args := ∅ |}.

Definition list_request (a : gmap string string) : request :=
  {| headers := api_headers; get_json := None; args := a |}.

Definition update_request (sponsor src nm new_status : string) : request :=
  {| headers := api_headers;
     get_json := Some (<[ "sponsor_id" := sponsor ]>
                       (<[ "source" := src ]>
                        (<[ "name" := nm ]> {[ "status" := new_status ]})));
     args := ∅ |}.

(** The store after a first manual sync of "sponsor-abc". *)
Definition synced_abc : state :=
  snd (sync_tasks (sync_request "sponsor-abc") initial_state).

(** The listing as the specification words it: a filter restricts the result
    whenever it is provided, whatever its value. *)
Definition lists_by_provided_filters (r : request) (st : state) : Prop :=
  list_tasks r st =
    (Return (Tasks (filter (passes (args r !! "sponsor_id")
                                   (args r !! "status"))
                           (TASK_STORE st)), 200%Z), st).

(** An asana integration that is down. *)
Definition asana_down : adapter := λ _, inl "asana unavailable".

(** The update of the scenario, and the store after it. *)
Definition finalize_contract_done : request :=
  update_request "sponsor-abc" "salesforce" "Finalize contract" "done".

Definition updated_abc : state :=
  snd (update_task_by_fields finalize_contract_done synced_abc).

(** ** Vocabulary for runs of the deployed program *)

(** What the three mock integrations return for a sponsor, in call order. *)
Definition fresh_tasks (s : string) : list task :=
  get_salesforce_tasks s ++ get_asana_tasks s ++ get_google_calendar_tasks s.

(** The fields [update_task_by_fields] compares. *)
Definition key (t : task) : string * string * string :=
  (sponsor_id t, source t, name t).

(** A task with its status blanked: two tasks agree on it exactly when they
    differ at most in their status. *)
Definition blank (t : task) : task := set_status t "".

(** The sponsor a sync request gets synced, if any: the request must carry
    the API key and a truthy sponsor_id. *)
Definition sync_target (r : request) : option string :=
  if decide (authorized r) then truthy (json_data r !! "sponsor_id") else None.

(** The store after a sync of "sponsor-abc" and then one of "sponsor-xyz". *)
Definition synced_abc_xyz : state :=
  snd (sync_tasks (sync_request "sponsor-xyz") synced_abc).

(** The states the program can be in.  The periodic job may walk its snapshot
    of the registered set in any order. *)
Inductive reachable : state → Prop :=
  | reachable_initial : reachable initial_state
  | reachable_sync r st :
      reachable st → reachable (snd (sync_tasks r st))
  | reachable_list r st :
      reachable st → reachable (snd (list_tasks r st))
  | reachable_update r st :
      reachable st → reachable (snd (update_task_by_fields r st))
  | reachable_periodic order st :
      reachable st → order ≡ₚ elements (SYNC_SPONSORS st) →
      reachable (snd (periodic_sync_loop order st)).

(** What every reachable state satisfies, as a predicate on the registered
    set and the store: stored records belong to registered sponsors, no
    sponsor and no status is empty, keys are not repeated, and a registered
    sponsor has the records of the integrations up to their status. *)
Definition consistent (X : gset string) (store : list task) : Prop :=
  ("" ∉ X) ∧
  (∀ t, t ∈ store → sponsor_id t ∈ X ∧ status t ≠ "") ∧
  NoDup (key <$> store) ∧
  (∀ s, s ∈ X → blank <$> records_of s store = blank <$> fresh_tasks s).

(** ** Basic facts *)

Lemma truthy_Some v s : truthy v = Some s ↔ v = Some s ∧ s ≠ "".
Proof.
  destruct v as [[|c v]|]; simpl; split.
  - discriminate.
  - intros [[= <-] H]. by destruct H.
  - intros [= <-]. done.
  - by intros [[= <-] _].
  - discriminate.
  - by intros [[=] _].
Qed.

Lemma truthy_None v : truthy v = None ↔ missing_or_empty v.
Proof.
  unfold missing_or_empty. destruct v as [[|c v]|]; simpl; split;
    try done; auto.
  - intros [[=]|[=]].
Qed.

Lemma check_api_key_authorized r st :
  authorized r → check_api_key r st = (Return (), st).
Proof.
  unfold authorized, check_api_key. intros ->.
  by rewrite decide_False by (intros H; by apply H).
Qed.

Lemma check_api_key_unauthorized r st :
  ¬ authorized r →
  check_api_key r st =
    (Raise (HTTPException 401 "Invalid or missing API key"), st).
Proof.
  unfold authorized, check_api_key. intros H. by rewrite decide_True.
Qed.

Lemma filter_all {A} (P : A → Prop) `{!∀ x, Decision (P x)} (l : list A) :
  (∀ x, x ∈ l → P x) → filter P l = l.
Proof.
  induction l as [|x l IH]; intros Hall; [done|].
  rewrite filter_cons_True by (apply Hall; left).
  f_equal. apply IH. intros y Hy. apply Hall. by right.
Qed.

Lemma filter_none {A} (P : A → Prop) `{!∀ x, Decision (P x)} (l : list A) :
  (∀ x, x ∈ l → ¬ P x) → filter P l = [].
Proof.
  induction l as [|x l IH]; intros Hnone; [done|].
  rewrite filter_cons_False by (apply Hnone; left).
  apply IH. intros y Hy. apply Hnone. by right.
Qed.

Lemma records_of_replaced s s' tasks store :
  (∀ t, t ∈ tasks → sponsor_id t = s) →
  records_of s' (filter (λ t, sponsor_id t ≠ s) store ++ tasks) =
    if decide (s' = s) then tasks else records_of s' store.
Proof.
  intros Hscoped. unfold records_of. rewrite filter_app.
  case_decide as Hs; subst.
  - rewrite (filter_none _ (filter _ store)), (filter_all _ tasks); auto.
    intros t [Ht _]%list_elem_of_filter. done.
  - rewrite (filter_none _ tasks), app_nil_r.
    + apply list_filter_filter_l. intros t ->. done.
    + intros t Ht Hs'. apply Hs. rewrite <-Hs'. by apply Hscoped.
Qed.

(** The replace is two statements, a rebinding and an extension.  In the
    state between them no record of the sponsor is stored; after the second
    the store is the replaced one. *)
Lemma replace_in_two_statements s tasks st :
  let between :=
    snd (rebind_store (filter (λ t, sponsor_id t ≠ s) (TASK_STORE st)) st) in
  records_of s (TASK_STORE between) = [] ∧
  snd (extend_store tasks between) = replaced s tasks st.
Proof.
  intros between. split; [|done].
  apply filter_none. intros t [Ht _]%list_elem_of_filter. done.
Qed.

(** ** What one run of a handler does *)

Section EngineFacts.

Variables salesforce asana google_calendar : adapter.

Local Abbreviation sync := (Engine.sync_tasks salesforce asana google_calendar).
Local Abbreviation loop :=
  (Engine.periodic_sync_loop salesforce asana google_calendar).
Local Abbreviation fetched := (fetch salesforce asana google_calendar).

Lemma adapter_failure_fetch s e :
  adapter_failure salesforce asana google_calendar s e ↔ fetched s = inl e.
Proof.
  unfold fetch. split.
  - intros [H|a Ha H|a b Ha Hb H]; rewrite ?Ha, ?Hb, ?H; done.
  - destruct (salesforce s) as [e1|a] eqn:Ha.
    { intros [= ->]. by apply salesforce_fails. }
    destruct (asana s) as [e2|b] eqn:Hb.
    { intros [= ->]. by eapply asana_fails. }
    destruct (google_calendar s) as [e3|c] eqn:Hc; [|done].
    intros [= ->]. by eapply google_calendar_fails.
Qed.

Lemma sync_tasks_unauthorized r st :
  ¬ authorized r →
  sync r st = (Raise (HTTPException 401 "Invalid or missing API key"), st).
Proof.
  intros H. unfold Engine.sync_tasks, bind.
  by rewrite check_api_key_unauthorized.
Qed.

Lemma sync_tasks_invalid r st :
  authorized r → truthy (json_data r !! "sponsor_id") = None →
  sync r st = (Raise (HTTPException 400 "Missing sponsor_id"), st).
Proof.
  intros Hauth Hs. unfold Engine.sync_tasks, bind.
  rewrite check_api_key_authorized by done.
  fold (json_data r). by rewrite Hs.
Qed.

Lemma sync_tasks_valid r st s :
  authorized r → truthy (json_data r !! "sponsor_id") = Some s →
  sync r st =
    match fetched s with
    | inl e => (Raise (Uncaught e), registered s st)
    | inr tasks =>
        (Return (Tasks tasks, 200%Z), replaced s tasks (registered s st))
    end.
Proof.
  intros Hauth Hs. unfold Engine.sync_tasks, bind, fetch.
  rewrite check_api_key_authorized by done.
  fold (json_data r). rewrite Hs. simpl. unfold call.
  destruct (salesforce s) as [e|a]; [done|].
  destruct (asana s) as [e|b]; [done|].
  destruct (google_calendar s) as [e|c]; [done|].
  simpl. by rewrite <-app_assoc.
Qed.

Lemma periodic_sync_loop_cons s l st :
  loop (s :: l) st =
    match fetched s with
    | inl e => (Raise (Uncaught e), st)
    | inr tasks => loop l (replaced s tasks st)
    end.
Proof.
  simpl. unfold bind, fetch, call.
  destruct (salesforce s) as [e|a]; [done|].
  destruct (asana s) as [e|b]; [done|].
  destruct (google_calendar s) as [e|c]; [done|].
  simpl. by rewrite <-app_assoc.
Qed.

Lemma periodic_sync_loop_app l1 l2 st st1 :
  loop l1 st = (Return (), st1) → loop (l1 ++ l2) st = loop l2 st1.
Proof.
  revert st. induction l1 as [|s l1 IH]; intros st.
  - simpl. unfold ret. by intros [= ->].
  - rewrite <-app_comm_cons, !periodic_sync_loop_cons.
    destruct (fetched s) as [e|tasks]; [done|]. apply IH.
Qed.

(** The loop never touches the registered set, whether it completes or
    stops at a raising adapter. *)
Lemma periodic_sync_loop_sponsors l st :
  SYNC_SPONSORS (snd (loop l st)) = SYNC_SPONSORS st.
Proof.
  revert st. induction l as [|s l IH]; intros st; [done|].
  rewrite periodic_sync_loop_cons.
  destruct (fetched s) as [e|tasks]; [done|]. by rewrite IH.
Qed.

Lemma sync_tasks_sponsors r st :
  SYNC_SPONSORS st ⊆ SYNC_SPONSORS (snd (sync r st)).
Proof.
  destruct (decide (authorized r)) as [Hauth|Hauth];
    [|by rewrite sync_tasks_unauthorized].
  destruct (truthy (json_data r !! "sponsor_id")) as [s|] eqn:Hs;
    [|by rewrite sync_tasks_invalid].
  rewrite (sync_tasks_valid _ _ s) by done.
  destruct (fetched s); simpl; set_solver.
Qed.

End EngineFacts.

(** *** [list_tasks] *)

Lemma list_tasks_unauthorized r st :
  ¬ authorized r →
  list_tasks r st =
    (Raise (HTTPException 401 "Invalid or missing API key"), st).
Proof.
  intros H. unfold list_tasks, bind. by rewrite check_api_key_unauthorized.
Qed.

Lemma list_tasks_state r st : snd (list_tasks r st) = st.
Proof.
  destruct (decide (authorized r)) as [Hauth|Hauth];
    [|by rewrite list_tasks_unauthorized].
  unfold list_tasks, bind. by rewrite check_api_key_authorized.
Qed.

Lemma list_tasks_authorized r st :
  authorized r →
  list_tasks r st =
    (Return (Tasks (filter (passes (truthy (args r !! "sponsor_id"))
                                   (truthy (args r !! "status")))
                           (TASK_STORE st)), 200%Z), st).
Proof.
  intros Hauth. unfold list_tasks, bind, read_store, ret.
  rewrite check_api_key_authorized by done.
  unfold passes.
  destruct (truthy (args r !! "sponsor_id")) as [s|],
           (truthy (args r !! "status")) as [s'|];
    apply (f_equal (λ l, (Return (Tasks l, 200%Z), st))).
  - rewrite list_filter_filter. apply list_filter_iff. intros t. tauto.
  - apply list_filter_iff. intros t. tauto.
  - apply list_filter_iff. intros t. tauto.
  - symmetry. apply filter_all. done.
Qed.

(** *** [update_task_by_fields] *)

Lemma update_loop_spec sponsor src nm new_status store matched :
  update_loop sponsor src nm new_status store matched =
    (assign_status sponsor src nm new_status store,
     matched || bool_decide (Exists (matches sponsor src nm) store)).
Proof.
  revert matched. induction store as [|t store IH]; intros matched; simpl.
  - by rewrite orb_false_r.
  - unfold assign_status. simpl. fold (matches sponsor src nm t).
    destruct (decide (matches sponsor src nm t)) as [Hm|Hm];
      rewrite IH; f_equal.
    + rewrite orb_true_l, bool_decide_eq_true_2 by (by left).
      by rewrite orb_true_r.
    + f_equal. apply bool_decide_ext. rewrite Exists_cons. tauto.
Qed.

Lemma assign_status_no_match sponsor src nm new_status store :
  ¬ Exists (matches sponsor src nm) store →
  assign_status sponsor src nm new_status store = store.
Proof.
  intros Hno. unfold assign_status.
  rewrite <-(list_fmap_id store) at 2. apply list_fmap_ext.
  intros i t Ht. rewrite decide_False; [done|].
  intros Hm. apply Hno, Exists_exists. exists t. split; [|done].
  by eapply list_elem_of_lookup_2.
Qed.

Lemma update_task_by_fields_unauthorized r st :
  ¬ authorized r →
  update_task_by_fields r st =
    (Raise (HTTPException 401 "Invalid or missing API key"), st).
Proof.
  intros H. unfold update_task_by_fields, bind.
  by rewrite check_api_key_unauthorized.
Qed.

Lemma update_task_by_fields_invalid r st :
  authorized r →
  truthy (json_data r !! "sponsor_id") = None ∨
  truthy (json_data r !! "source") = None ∨
  truthy (json_data r !! "name") = None ∨
  truthy (json_data r !! "status") = None →
  update_task_by_fields r st =
    (Raise (HTTPException 400
       "Must include sponsor_id, source, name, and status"), st).
Proof.
  intros Hauth H. unfold update_task_by_fields, bind.
  rewrite check_api_key_authorized by done. fold (json_data r).
  destruct (truthy (json_data r !! "sponsor_id")),
           (truthy (json_data r !! "source")),
           (truthy (json_data r !! "name")),
           (truthy (json_data r !! "status")); try done.
  by destruct H as [|[|[|]]].
Qed.

Lemma update_task_by_fields_valid r st sponsor src nm new_status :
  authorized r →
  truthy (json_data r !! "sponsor_id") = Some sponsor →
  truthy (json_data r !! "source") = Some src →
  truthy (json_data r !! "name") = Some nm →
  truthy (json_data r !! "status") = Some new_status →
  update_task_by_fields r st =
    (if bool_decide (Exists (matches sponsor src nm) (TASK_STORE st))
     then Return (Updated true, 200%Z)
     else Raise (HTTPException 404 "No matching task found"),
     {| TASK_STORE :=
          assign_status sponsor src nm new_status (TASK_STORE st);
        SYNC_SPONSORS := SYNC_SPONSORS st |}).
Proof.
  intros Hauth H1 H2 H3 H4. unfold update_task_by_fields, bind.
  rewrite check_api_key_authorized by done. fold (json_data r).
  rewrite H1, H2, H3, H4. unfold read_store.
  rewrite update_loop_spec. simpl.
  by destruct (bool_decide _).
Qed.

Lemma update_task_by_fields_sponsors r st :
  SYNC_SPONSORS (snd (update_task_by_fields r st)) = SYNC_SPONSORS st.
Proof.
  destruct (decide (authorized r)) as [Hauth|Hauth];
    [|by rewrite update_task_by_fields_unauthorized].
  destruct (truthy (json_data r !! "sponsor_id")) as [sponsor|] eqn:H1;
    [|rewrite update_task_by_fields_invalid; auto].
  destruct (truthy (json_data r !! "source")) as [src|] eqn:H2;
    [|rewrite update_task_by_fields_invalid; auto].
  destruct (truthy (json_data r !! "name")) as [nm|] eqn:H3;
    [|rewrite update_task_by_fields_invalid; auto].
  destruct (truthy (json_data r !! "status")) as [new_status|] eqn:H4;
    [|rewrite update_task_by_fields_invalid; auto 6].
  by erewrite update_task_by_fields_valid.
Qed.

(** ** The deployed program: facts about the mock integrations *)

Lemma fetch_mocks s :
  fetch (returns get_salesforce_tasks) (returns get_asana_tasks)
        (returns get_google_calendar_tasks) s =
    inr (get_salesforce_tasks s ++ get_asana_tasks s ++
         get_google_calendar_tasks s).
Proof. reflexivity. Qed.

Lemma mocks_scoped s t :
  t ∈ get_salesforce_tasks s ++ get_asana_tasks s ++
      get_google_calendar_tasks s →
  sponsor_id t = s.
Proof.
  revert t. apply Forall_forall. repeat constructor.
Qed.

Lemma sync_tasks_returns r st s :
  authorized r → truthy (json_data r !! "sponsor_id") = Some s →
  sync_tasks r st =
    (Return (Tasks (get_salesforce_tasks s ++ get_asana_tasks s ++
                    get_google_calendar_tasks s), 200%Z),
     replaced s (get_salesforce_tasks s ++ get_asana_tasks s ++
                 get_google_calendar_tasks s) (registered s st)).
Proof.
  intros Hauth Hs. unfold sync_tasks.
  by rewrite (sync_tasks_valid _ _ _ _ _ s), fetch_mocks.
Qed.

(** Every run of [sync_tasks] ends in one of three ways. *)
Lemma sync_tasks_cases r st :
  (¬ authorized r ∧ snd (sync_tasks r st) = st) ∨
  (authorized r ∧ truthy (json_data r !! "sponsor_id") = None ∧
   snd (sync_tasks r st) = st) ∨
  (∃ s, authorized r ∧ truthy (json_data r !! "sponsor_id") = Some s ∧
        snd (sync_tasks r st) =
          replaced s (get_salesforce_tasks s ++ get_asana_tasks s ++
                      get_google_calendar_tasks s) (registered s st)).
Proof.
  destruct (decide (authorized r)) as [Hauth|Hauth].
  - destruct (truthy (json_data r !! "sponsor_id")) as [s|] eqn:Hs.
    + right; right. exists s. by rewrite (sync_tasks_returns _ _ s).
    + right; left. unfold sync_tasks. by rewrite sync_tasks_invalid.
  - left. unfold sync_tasks. by rewrite sync_tasks_unauthorized.
Qed.

Lemma authorized_list_request a : authorized (list_request a).
Proof. reflexivity. Qed.

Lemma list_tasks_by_sponsor st s :
  s ≠ "" →
  list_tasks (list_request {[ "sponsor_id" := s ]}) st =
    (Return (Tasks (records_of s (TASK_STORE st)), 200%Z), st).
Proof.
  intros Hne. rewrite list_tasks_authorized by apply authorized_list_request.
  cbn [list_request args].
  rewrite lookup_singleton_eq, lookup_singleton_ne by done.
  replace (truthy (Some s)) with (Some s) by (symmetry; by apply truthy_Some).
  apply (f_equal (λ l, (Return (Tasks l, 200%Z), st))).
  apply list_filter_iff. unfold passes. intros t. cbn [truthy]. tauto.
Qed.

(** ** Properties of the specification *)

(** C1 (P1, I1): after a successful manual sync of sponsor [s], the records
    stored for [s] are exactly the outputs of the three adapters for [s],
    concatenated in the order salesforce, asana, google_calendar; nothing of
    an earlier sync of [s] is left, and listing with the sponsor filter [s]
    returns that same sequence. *)
Theorem sync_replaces_sponsor_records (r : request) (st : state) (s : string) :
  authorized r → json_data r !! "sponsor_id" = Some s → s ≠ "" →
  let fresh := get_salesforce_tasks s ++ get_asana_tasks s ++
               get_google_calendar_tasks s in
  ∃ st',
    sync_tasks r st = (Return (Tasks fresh, 200%Z), st') ∧
    records_of s (TASK_STORE st') = fresh ∧
    (∀ t, t ∈ TASK_STORE st' → sponsor_id t = s → t ∈ fresh) ∧
    list_tasks (list_request {[ "sponsor_id" := s ]}) st' =
      (Return (Tasks fresh, 200%Z), st').
Proof.
  intros Hauth Hs Hne fresh.
  assert (truthy (json_data r !! "sponsor_id") = Some s) as Ht
    by by apply truthy_Some.
  assert (records_of s (TASK_STORE (replaced s fresh (registered s st)))
          = fresh) as Hrec.
  { cbn [replaced TASK_STORE registered].
    rewrite records_of_replaced by apply mocks_scoped.
    by rewrite decide_True. }
  exists (replaced s fresh (registered s st)).
  split; [by apply sync_tasks_returns|].
  split; [done|]. split.
  - intros t Hin Hid. rewrite <-Hrec. by apply list_elem_of_filter.
  - by rewrite list_tasks_by_sponsor, Hrec.
Qed.

Lemma sync_replaces_sponsor_records_witness :
  let fresh := get_salesforce_tasks "sponsor-abc" ++
               get_asana_tasks "sponsor-abc" ++
               get_google_calendar_tasks "sponsor-abc" in
  ∃ st',
    sync_tasks (sync_request "sponsor-abc") initial_state =
      (Return (Tasks fresh, 200%Z), st') ∧
    records_of "sponsor-abc" (TASK_STORE st') = fresh ∧
    (∀ t, t ∈ TASK_STORE st' → sponsor_id t = "sponsor-abc" → t ∈ fresh) ∧
    list_tasks (list_request {[ "sponsor_id" := "sponsor-abc" ]}) st' =
      (Return (Tasks fresh, 200%Z), st').
Proof.
  apply (sync_replaces_sponsor_records
           (sync_request "sponsor-abc") initial_state "sponsor-abc").
  - reflexivity.
  - reflexivity.
  - discriminate.
Defined.

(** C2 (P2): syncing sponsor [a] leaves the records of every other sponsor
    [b] as they were, in the same order; more generally the sublist of the
    records that are not [a]'s is unchanged, so only records of [a] are
    removed or added. *)
Theorem sync_isolates_other_sponsors (r : request) (st : state) (a b : string) :
  json_data r !! "sponsor_id" = Some a → a ≠ b →
  records_of b (TASK_STORE (snd (sync_tasks r st))) =
    records_of b (TASK_STORE st) ∧
  filter (λ t, sponsor_id t ≠ a) (TASK_STORE (snd (sync_tasks r st))) =
    filter (λ t, sponsor_id t ≠ a) (TASK_STORE st).
Proof.
  intros Ha Hab.
  destruct (sync_tasks_cases r st) as [[_ ->]|[(_ & _ & ->)|(s & _ & Hs & ->)]];
    [done..|].
  apply truthy_Some in Hs as [Hs _]. rewrite Ha in Hs. injection Hs as <-.
  cbn [replaced registered TASK_STORE]. split.
  - rewrite records_of_replaced by apply mocks_scoped.
    by rewrite decide_False.
  - rewrite filter_app, (filter_none _ (_ ++ _ ++ _)), app_nil_r.
    + apply list_filter_filter_l. done.
    + intros t Ht Hne. by apply Hne, mocks_scoped.
Qed.

Lemma sync_isolates_other_sponsors_witness :
  let st := snd (sync_tasks (sync_request "sponsor-abc") initial_state) in
  records_of "sponsor-abc"
    (TASK_STORE (snd (sync_tasks (sync_request "sponsor-xyz") st))) =
    records_of "sponsor-abc" (TASK_STORE st) ∧
  filter (λ t, sponsor_id t ≠ "sponsor-xyz")
    (TASK_STORE (snd (sync_tasks (sync_request "sponsor-xyz") st))) =
    filter (λ t, sponsor_id t ≠ "sponsor-xyz") (TASK_STORE st).
Proof.
  intros st.
  apply (sync_isolates_other_sponsors
           (sync_request "sponsor-xyz") st "sponsor-xyz" "sponsor-abc").
  - reflexivity.
  - discriminate.
Defined.

(** *** The registered-sponsor set along a run *)

Lemma run_sponsors op st : SYNC_SPONSORS st ⊆ SYNC_SPONSORS (run op st).
Proof.
  destruct op as [r|r|r|]; simpl.
  - apply sync_tasks_sponsors.
  - by rewrite list_tasks_state.
  - by rewrite update_task_by_fields_sponsors.
  - unfold periodic_sync, Engine.periodic_sync.
    by rewrite periodic_sync_loop_sponsors.
Qed.

Lemma run_all_sponsors ops st :
  SYNC_SPONSORS st ⊆ SYNC_SPONSORS (run_all ops st).
Proof.
  revert st. induction ops as [|op ops IH]; intros st; [done|].
  simpl. etrans; [apply (run_sponsors op)|apply IH].
Qed.

Lemma filter_eq_NoDup {A} `{EqDecision A} (x : A) (l : list A) :
  NoDup l → x ∈ l → length (filter (λ y, y = x) l) = 1.
Proof.
  induction 1 as [|y l Hy Hl IH]; intros Hin.
  - by apply not_elem_of_nil in Hin.
  - destruct (decide (y = x)) as [->|Hne].
    + rewrite filter_cons_True by done. simpl. f_equal.
      rewrite filter_none; [done|]. intros z Hz ->. done.
    + rewrite filter_cons_False by done. apply IH.
      apply elem_of_cons in Hin as [->|]; done.
Qed.

Lemma occurrences_registered s (X : gset string) :
  s ∈ X → occurrences s X = 1.
Proof.
  intros Hin. unfold occurrences.
  apply filter_eq_NoDup; [apply NoDup_elements|by apply elem_of_elements].
Qed.

Lemma manual_sync_iter r st s n :
  authorized r → truthy (json_data r !! "sponsor_id") = Some s →
  SYNC_SPONSORS (Nat.iter (S n) (run (ManualSync r)) st) =
    {[ s ]} ∪ SYNC_SPONSORS st.
Proof.
  intros Hauth Hs. induction n as [|n IH].
  - simpl. by rewrite (sync_tasks_returns _ _ s).
  - change (Nat.iter (S (S n)) (run (ManualSync r)) st)
      with (run (ManualSync r) (Nat.iter (S n) (run (ManualSync r)) st)).
    cbn [run]. rewrite (sync_tasks_returns _ _ s) by done.
    cbn [snd replaced registered SYNC_SPONSORS].
    by rewrite IH, (assoc_L (∪)), union_idemp_L.
Qed.

(** C3 (P3, I2): no run of operations (manual sync, listing, update,
    periodic refresh) removes a sponsor from the registered set; and after
    [n] > 0 manual syncs of the same sponsor the set is the old one plus that
    sponsor, which occurs in it exactly once, also after any further
    operations. *)
Theorem registered_set_only_grows :
  (∀ ops st, SYNC_SPONSORS st ⊆ SYNC_SPONSORS (run_all ops st)) ∧
  (∀ r s st n ops,
     authorized r → json_data r !! "sponsor_id" = Some s → s ≠ "" → 0 < n →
     let st' := Nat.iter n (run (ManualSync r)) st in
     SYNC_SPONSORS st' = {[ s ]} ∪ SYNC_SPONSORS st ∧
     occurrences s (SYNC_SPONSORS st') = 1 ∧
     occurrences s (SYNC_SPONSORS (run_all ops st')) = 1).
Proof.
  split; [apply run_all_sponsors|].
  intros r s st n ops Hauth Hs Hne Hn st'.
  assert (truthy (json_data r !! "sponsor_id") = Some s) as Ht
    by by apply truthy_Some.
  destruct n as [|n]; [lia|].
  assert (SYNC_SPONSORS st' = {[ s ]} ∪ SYNC_SPONSORS st) as Heq
    by by apply manual_sync_iter.
  assert (s ∈ SYNC_SPONSORS st') as Hin.
  { rewrite Heq. by apply elem_of_union_l, elem_of_singleton. }
  split; [done|]. split; apply occurrences_registered; [done|].
  by apply (run_all_sponsors ops).
Qed.

Lemma registered_set_only_grows_witness :
  let st' := Nat.iter 3 (run (ManualSync (sync_request "sponsor-abc")))
               initial_state in
  SYNC_SPONSORS st' = {[ "sponsor-abc" ]} ∪ SYNC_SPONSORS initial_state ∧
  occurrences "sponsor-abc" (SYNC_SPONSORS st') = 1 ∧
  occurrences "sponsor-abc"
    (SYNC_SPONSORS (run_all [PeriodicRefresh; ListTasks (list_request ∅)] st'))
    = 1.
Proof.
  apply (proj2 registered_set_only_grows
           (sync_request "sponsor-abc") "sponsor-abc" initial_state 3
           [PeriodicRefresh; ListTasks (list_request ∅)]).
  - reflexivity.
  - reflexivity.
  - discriminate.
  - lia.
Defined.

(** *** Listing *)

(** C4, as stated, fails for a filter that is provided but empty: on the
    store holding the six records of "sponsor-abc", none of which has an empty
    sponsor_id, the listing with [sponsor_id=] returns all six records. *)
Lemma list_tasks_empty_filter_counterexample :
  authorized (list_request {[ "sponsor_id" := "" ]}) ∧
  filter (passes (Some "") None) (TASK_STORE synced_abc) = [] ∧
  fst (list_tasks (list_request {[ "sponsor_id" := "" ]}) synced_abc) =
    Return (Tasks (TASK_STORE synced_abc), 200%Z) ∧
  length (TASK_STORE synced_abc) = 6 ∧
  ¬ lists_by_provided_filters (list_request {[ "sponsor_id" := "" ]})
      synced_abc.
Proof.
  split; [reflexivity|]. split; [by vm_compute|].
  split; [by vm_compute|]. split; [by vm_compute|].
  unfold lists_by_provided_filters. intros H.
  apply (f_equal fst) in H. vm_compute in H. discriminate H.
Qed.

Lemma passes_truthy a b t :
  passes (truthy a) (truthy b) t ↔
    (∀ s, a = Some s → s ≠ "" → sponsor_id t = s) ∧
    (∀ s, b = Some s → s ≠ "" → status t = s).
Proof.
  unfold passes. split.
  - intros [Ha Hb]. split; intros s Hs Hne.
    + by rewrite (proj2 (truthy_Some a s)) in Ha.
    + by rewrite (proj2 (truthy_Some b s)) in Hb.
  - intros [Ha Hb]. split.
    + destruct (truthy a) as [s|] eqn:Hs; [|done].
      apply truthy_Some in Hs as [? ?]. by apply Ha.
    + destruct (truthy b) as [s|] eqn:Hs; [|done].
      apply truthy_Some in Hs as [? ?]. by apply Hb.
Qed.

(** C4 (P4), amended: the listing returns the stored records, in store
    order, whose sponsor_id equals the sponsor filter when that filter is
    provided and not empty, and whose status equals the status filter when
    that filter is provided and not empty; with both omitted it returns all
    records; the store and the registered set are never changed. *)
Theorem list_tasks_filters (r : request) (st : state) :
  authorized r →
  let kept := passes (truthy (args r !! "sponsor_id"))
                     (truthy (args r !! "status")) in
  list_tasks r st = (Return (Tasks (filter kept (TASK_STORE st)), 200%Z), st) ∧
  (∀ t, kept t ↔
     (∀ s, args r !! "sponsor_id" = Some s → s ≠ "" → sponsor_id t = s) ∧
     (∀ s, args r !! "status" = Some s → s ≠ "" → status t = s)) ∧
  (args r !! "sponsor_id" = None → args r !! "status" = None →
   list_tasks r st = (Return (Tasks (TASK_STORE st), 200%Z), st)) ∧
  (∀ q, snd (list_tasks q st) = st).
Proof.
  intros Hauth kept. split; [by apply list_tasks_authorized|].
  split; [intros t; apply passes_truthy|].
  split; [|intros q; apply list_tasks_state].
  intros Hs Hst. rewrite list_tasks_authorized by done.
  rewrite Hs, Hst. cbn [truthy].
  apply (f_equal (λ l, (Return (Tasks l, 200%Z), st))).
  by apply filter_all.
Qed.

Lemma list_tasks_filters_witness :
  let r := list_request {[ "status" := "done" ]} in
  let kept := passes (truthy (args r !! "sponsor_id"))
                     (truthy (args r !! "status")) in
  list_tasks r synced_abc =
    (Return (Tasks (filter kept (TASK_STORE synced_abc)), 200%Z), synced_abc) ∧
  (∀ t, kept t ↔
     (∀ s, args r !! "sponsor_id" = Some s → s ≠ "" → sponsor_id t = s) ∧
     (∀ s, args r !! "status" = Some s → s ≠ "" → status t = s)) ∧
  (args r !! "sponsor_id" = None → args r !! "status" = None →
   list_tasks r synced_abc =
     (Return (Tasks (TASK_STORE synced_abc), 200%Z), synced_abc)) ∧
  (∀ q, snd (list_tasks q synced_abc) = synced_abc).
Proof.
  apply (list_tasks_filters (list_request {[ "status" := "done" ]}) synced_abc).
  reflexivity.
Defined.

(** C10: an empty-string sponsor_id or status argument is treated exactly as
    an omitted one: the listing is that of the request without the argument,
    and what it returns is the store restricted by the other filter alone,
    the whole store when the other filter is omitted or empty too, not the
    records whose field is empty.  On the store holding the six records of
    "sponsor-abc" the listing with [sponsor_id=] returns all of them although
    no record has an empty sponsor_id; on the store of two sponsors the
    listing with [sponsor_id=sponsor-abc&status=] returns the six records of
    that sponsor out of twelve. *)
Theorem list_tasks_empty_filter_is_omitted :
  (∀ h j a st,
     list_tasks (Request h j (<[ "sponsor_id" := "" ]> a)) st =
     list_tasks (Request h j (delete "sponsor_id" a)) st) ∧
  (∀ h j a st,
     list_tasks (Request h j (<[ "status" := "" ]> a)) st =
     list_tasks (Request h j (delete "status" a)) st) ∧
  (∀ r st,
     authorized r → args r !! "sponsor_id" = Some "" →
     (∀ s, args r !! "status" = Some s → s ≠ "" →
        list_tasks r st =
          (Return (Tasks (filter (λ t, status t = s) (TASK_STORE st)), 200%Z),
           st)) ∧
     (missing_or_empty (args r !! "status") →
        list_tasks r st = (Return (Tasks (TASK_STORE st), 200%Z), st))) ∧
  (∀ r st,
     authorized r → args r !! "status" = Some "" →
     (∀ s, args r !! "sponsor_id" = Some s → s ≠ "" →
        list_tasks r st =
          (Return (Tasks (filter (λ t, sponsor_id t = s) (TASK_STORE st)),
                   200%Z), st)) ∧
     (missing_or_empty (args r !! "sponsor_id") →
        list_tasks r st = (Return (Tasks (TASK_STORE st), 200%Z), st))) ∧
  list_tasks (list_request {[ "sponsor_id" := "" ]}) synced_abc =
    (Return (Tasks (TASK_STORE synced_abc), 200%Z), synced_abc) ∧
  records_of "" (TASK_STORE synced_abc) = [] ∧
  TASK_STORE synced_abc ≠ [] ∧
  length (TASK_STORE synced_abc_xyz) = 12 ∧
  fst (list_tasks
         (list_request (<[ "sponsor_id" := "sponsor-abc" ]> {[ "status" := "" ]}))
         synced_abc_xyz) =
    Return (Tasks
      [ Task "sponsor-abc" "salesforce" "Finalize contract" "2025-08-01" "pending";
        Task "sponsor-abc" "salesforce" "Upload logo" "2025-08-05" "pending";
        Task "sponsor-abc" "asana" "Post campaign assets" "2025-07-30" "done";
        Task "sponsor-abc" "asana" "Review creative brief" "2025-08-03" "pending";
        Task "sponsor-abc" "google_calendar" "Activation deadline" "2025-08-10"
          "pending";
        Task "sponsor-abc" "google_calendar" "Post-event report" "2025-08-20"
          "pending" ], 200%Z).
Proof.
  split; [|split; [|split; [|split; [|split; [|split; [|split; [|split]]]]]]].
  - intros h j a st. unfold list_tasks, check_api_key, bind.
    cbn [args headers].
    rewrite lookup_insert_eq, lookup_delete_eq.
    by rewrite lookup_insert_ne, lookup_delete_ne by done.
  - intros h j a st. unfold list_tasks, check_api_key, bind.
    cbn [args headers].
    rewrite lookup_insert_eq, lookup_delete_eq.
    by rewrite lookup_insert_ne, lookup_delete_ne by done.
  - intros r st Hauth Hsponsor. split.
    + intros s Hstatus Hne. rewrite list_tasks_authorized by done.
      rewrite Hsponsor, Hstatus.
      rewrite (proj2 (truthy_Some (Some s) s)) by done. cbn [truthy].
      apply (f_equal (λ l, (Return (Tasks l, 200%Z), st))).
      apply list_filter_iff. unfold passes. intros t. tauto.
    + intros Hstatus%truthy_None. rewrite list_tasks_authorized by done.
      rewrite Hsponsor, Hstatus. cbn [truthy].
      apply (f_equal (λ l, (Return (Tasks l, 200%Z), st))).
      by apply filter_all.
  - intros r st Hauth Hstatus. split.
    + intros s Hsponsor Hne. rewrite list_tasks_authorized by done.
      rewrite Hsponsor, Hstatus.
      rewrite (proj2 (truthy_Some (Some s) s)) by done. cbn [truthy].
      apply (f_equal (λ l, (Return (Tasks l, 200%Z), st))).
      apply list_filter_iff. unfold passes. intros t. tauto.
    + intros Hsponsor%truthy_None. rewrite list_tasks_authorized by done.
      rewrite Hsponsor, Hstatus. cbn [truthy].
      apply (f_equal (λ l, (Return (Tasks l, 200%Z), st))).
      by apply filter_all.
  - rewrite list_tasks_authorized by reflexivity.
    apply (f_equal (λ l, (Return (Tasks l, 200%Z), synced_abc))).
    by vm_compute.
  - by vm_compute.
  - by vm_compute.
  - by vm_compute.
  - by vm_compute.
Qed.

(** On the store after the update of the scenario, [sponsor_id=&status=done]
    lists the records that are done. *)
Lemma list_tasks_empty_filter_is_omitted_witness :
  list_tasks
    (list_request (<[ "sponsor_id" := "" ]> {[ "status" := "done" ]}))
    updated_abc =
    (Return (Tasks (filter (λ t, status t = "done") (TASK_STORE updated_abc)),
             200%Z), updated_abc).
Proof.
  apply (proj1 (proj2 (proj2 list_tasks_empty_filter_is_omitted))
           (list_request (<[ "sponsor_id" := "" ]> {[ "status" := "done" ]}))
           updated_abc).
  - reflexivity.
  - reflexivity.
  - reflexivity.
  - discriminate.
Defined.

(** *** Updating *)

(** C5 (P5, I3): on a request carrying the four fields, the update sets the
    status of every stored record under the key (sponsor_id, source, name) to
    the new status, keeping its other four fields, and leaves every other
    record as it is; length, order and the registered set are kept; the
    reply is a success exactly when some record is under the key, and
    otherwise it is the 404 abort with the state as it was. *)
Theorem update_match_or_fail (r : request) (st : state)
    (sponsor src nm new_status : string) :
  authorized r →
  truthy (json_data r !! "sponsor_id") = Some sponsor →
  truthy (json_data r !! "source") = Some src →
  truthy (json_data r !! "name") = Some nm →
  truthy (json_data r !! "status") = Some new_status →
  let out := fst (update_task_by_fields r st) in
  let st' := snd (update_task_by_fields r st) in
  (∀ i t, TASK_STORE st !! i = Some t →
     TASK_STORE st' !! i =
       Some (if decide (matches sponsor src nm t)
             then {| sponsor_id := sponsor_id t; source := source t;
                     name := name t; due_date := due_date t;
                     status := new_status |}
             else t)) ∧
  (∀ t', t' ∈ TASK_STORE st' → matches sponsor src nm t' →
         status t' = new_status) ∧
  length (TASK_STORE st') = length (TASK_STORE st) ∧
  SYNC_SPONSORS st' = SYNC_SPONSORS st ∧
  (out = Return (Updated true, 200%Z) ↔
     ∃ t, t ∈ TASK_STORE st ∧ matches sponsor src nm t) ∧
  ((¬ ∃ t, t ∈ TASK_STORE st ∧ matches sponsor src nm t) →
     out = Raise (HTTPException 404 "No matching task found") ∧ st' = st).
Proof.
  intros Hauth H1 H2 H3 H4 out st'. subst out st'.
  rewrite (update_task_by_fields_valid _ _ sponsor src nm new_status) by done.
  cbn [fst snd TASK_STORE SYNC_SPONSORS].
  split; [|split; [|split; [|split; [done|split]]]].
  - intros i t Ht. unfold assign_status. by rewrite list_lookup_fmap, Ht.
  - intros t' (t & -> & _)%list_elem_of_fmap. by case_decide.
  - unfold assign_status. by rewrite length_fmap.
  - rewrite <-Exists_exists. by case_bool_decide as Hex.
  - rewrite <-Exists_exists. intros Hno.
    rewrite bool_decide_eq_false_2 by done. split; [done|].
    rewrite assign_status_no_match by done. by destruct st.
Qed.

Lemma update_match_or_fail_witness :
  let r := update_request "sponsor-abc" "salesforce" "Finalize contract"
             "done" in
  let out := fst (update_task_by_fields r synced_abc) in
  let st' := snd (update_task_by_fields r synced_abc) in
  (∀ i t, TASK_STORE synced_abc !! i = Some t →
     TASK_STORE st' !! i =
       Some (if decide (matches "sponsor-abc" "salesforce"
                          "Finalize contract" t)
             then {| sponsor_id := sponsor_id t; source := source t;
                     name := name t; due_date := due_date t;
                     status := "done" |}
             else t)) ∧
  (∀ t', t' ∈ TASK_STORE st' →
         matches "sponsor-abc" "salesforce" "Finalize contract" t' →
         status t' = "done") ∧
  length (TASK_STORE st') = length (TASK_STORE synced_abc) ∧
  SYNC_SPONSORS st' = SYNC_SPONSORS synced_abc ∧
  (out = Return (Updated true, 200%Z) ↔
     ∃ t, t ∈ TASK_STORE synced_abc ∧
          matches "sponsor-abc" "salesforce" "Finalize contract" t) ∧
  ((¬ ∃ t, t ∈ TASK_STORE synced_abc ∧
           matches "sponsor-abc" "salesforce" "Finalize contract" t) →
     out = Raise (HTTPException 404 "No matching task found") ∧
     st' = synced_abc).
Proof.
  apply (update_match_or_fail
           (update_request "sponsor-abc" "salesforce" "Finalize contract"
              "done")
           synced_abc "sponsor-abc" "salesforce" "Finalize contract" "done").
  - reflexivity.
  - reflexivity.
  - reflexivity.
  - reflexivity.
  - reflexivity.
Defined.

(** *** Failing adapters *)

(** C6 (P6): when an adapter call raises during the sync of sponsor [s], the
    exception reaches the caller and the task store is exactly as it was: in
    the manual sync only the registration of [s] has happened, and the
    periodic job stops at [s] with the state the earlier sponsors left.  When
    the three calls return, the replace is carried out in full.  One of the
    two always applies. *)
Theorem sync_failure_leaves_store (salesforce asana google_calendar : adapter)
    (s : string) :
  let sync := Engine.sync_tasks salesforce asana google_calendar in
  let loop := Engine.periodic_sync_loop salesforce asana google_calendar in
  (∀ r st e,
     authorized r → truthy (json_data r !! "sponsor_id") = Some s →
     adapter_failure salesforce asana google_calendar s e →
     ∃ st', sync r st = (Raise (Uncaught e), st') ∧
            TASK_STORE st' = TASK_STORE st ∧
            SYNC_SPONSORS st' = {[ s ]} ∪ SYNC_SPONSORS st) ∧
  (∀ r st a b c,
     authorized r → truthy (json_data r !! "sponsor_id") = Some s →
     salesforce s = inr a → asana s = inr b → google_calendar s = inr c →
     ∃ st', sync r st = (Return (Tasks (a ++ b ++ c), 200%Z), st') ∧
            TASK_STORE st' =
              filter (λ t, sponsor_id t ≠ s) (TASK_STORE st) ++ a ++ b ++ c) ∧
  ((∃ e, adapter_failure salesforce asana google_calendar s e) ∨
   (∃ a b c, salesforce s = inr a ∧ asana s = inr b ∧
             google_calendar s = inr c)) ∧
  (∀ e before rest st0 st1,
     adapter_failure salesforce asana google_calendar s e →
     loop before st0 = (Return (), st1) →
     loop (before ++ s :: rest) st0 = (Raise (Uncaught e), st1)).
Proof.
  intros sync loop. subst sync loop.
  split; [|split; [|split]].
  - intros r st e Hauth Hs He%adapter_failure_fetch.
    exists (registered s st).
    by rewrite (sync_tasks_valid _ _ _ _ _ s), He.
  - intros r st a b c Hauth Hs Ha Hb Hc. eexists.
    rewrite (sync_tasks_valid _ _ _ _ _ s) by done.
    unfold fetch. rewrite Ha, Hb, Hc. done.
  - destruct (salesforce s) as [e|a] eqn:Ha.
    { left. exists e. by apply salesforce_fails. }
    destruct (asana s) as [e|b] eqn:Hb.
    { left. exists e. by eapply asana_fails. }
    destruct (google_calendar s) as [e|c] eqn:Hc.
    { left. exists e. by eapply google_calendar_fails. }
    right. by exists a, b, c.
  - intros e before rest st0 st1 He%adapter_failure_fetch Hbefore.
    rewrite (periodic_sync_loop_app _ _ _ _ _ _ st1) by done.
    by rewrite periodic_sync_loop_cons, He.
Qed.

(** With asana down, a manual sync of "sponsor-abc" raises and leaves the six
    stored records, and so does a periodic run that starts with
    "sponsor-abc". *)
Lemma sync_failure_leaves_store_witness :
  (∃ st',
     Engine.sync_tasks (returns get_salesforce_tasks) asana_down
       (returns get_google_calendar_tasks)
       (sync_request "sponsor-abc") synced_abc =
       (Raise (Uncaught "asana unavailable"), st') ∧
     TASK_STORE st' = TASK_STORE synced_abc ∧
     SYNC_SPONSORS st' = {[ "sponsor-abc" ]} ∪ SYNC_SPONSORS synced_abc) ∧
  Engine.periodic_sync_loop (returns get_salesforce_tasks) asana_down
    (returns get_google_calendar_tasks) ([] ++ ["sponsor-abc"; "sponsor-xyz"])
    synced_abc =
    (Raise (Uncaught "asana unavailable"), synced_abc).
Proof.
  destruct (sync_failure_leaves_store
              (returns get_salesforce_tasks) asana_down
              (returns get_google_calendar_tasks) "sponsor-abc")
    as (Hmanual & _ & _ & Hperiodic).
  assert (adapter_failure (returns get_salesforce_tasks) asana_down
            (returns get_google_calendar_tasks) "sponsor-abc"
            "asana unavailable") as Hdown
    by (by eapply asana_fails).
  split.
  - apply Hmanual; [reflexivity|reflexivity|exact Hdown].
  - apply Hperiodic; [exact Hdown|reflexivity].
Defined.

(** *** Invalid input *)



(** *** The scenario of the specification *)

(** C8: from the empty store, syncing "sponsor-abc" stores six records, two
    per source, all pending except asana's "Post campaign assets", which is
    done; the update of salesforce's "Finalize contract" to done succeeds and
    changes the status of that record only; listing by status done then
    returns exactly two records. *)
Theorem scenario_sponsor_abc :
  TASK_STORE initial_state = [] ∧
  fst (sync_tasks (sync_request "sponsor-abc") initial_state) =
    Return (Tasks (TASK_STORE synced_abc), 200%Z) ∧
  TASK_STORE synced_abc =
    [ Task "sponsor-abc" "salesforce" "Finalize contract" "2025-08-01" "pending";
      Task "sponsor-abc" "salesforce" "Upload logo" "2025-08-05" "pending";
      Task "sponsor-abc" "asana" "Post campaign assets" "2025-07-30" "done";
      Task "sponsor-abc" "asana" "Review creative brief" "2025-08-03" "pending";
      Task "sponsor-abc" "google_calendar" "Activation deadline" "2025-08-10"
        "pending";
      Task "sponsor-abc" "google_calendar" "Post-event report" "2025-08-20"
        "pending" ] ∧
  length (TASK_STORE synced_abc) = 6 ∧
  Forall (λ src, length (filter (λ t, source t = src) (TASK_STORE synced_abc))
                 = 2)
    [ "salesforce"; "asana"; "google_calendar" ] ∧
  Forall (λ t, status t =
               if decide (source t = "asana" ∧ name t = "Post campaign assets")
               then "done" else "pending")
    (TASK_STORE synced_abc) ∧
  fst (update_task_by_fields finalize_contract_done synced_abc) =
    Return (Updated true, 200%Z) ∧
  TASK_STORE updated_abc =
    <[ 0 := Task "sponsor-abc" "salesforce" "Finalize contract" "2025-08-01"
              "done" ]> (TASK_STORE synced_abc) ∧
  length (filter (λ t, matches "sponsor-abc" "salesforce" "Finalize contract" t)
            (TASK_STORE synced_abc)) = 1 ∧
  fst (list_tasks (list_request {[ "status" := "done" ]}) updated_abc) =
    Return (Tasks
      [ Task "sponsor-abc" "salesforce" "Finalize contract" "2025-08-01" "done";
        Task "sponsor-abc" "asana" "Post campaign assets" "2025-07-30" "done" ],
      200%Z).
Proof.
  repeat split; try (by vm_compute).
  - repeat constructor.
  - vm_compute. repeat constructor.
Qed.

(** ** Further properties of the handlers *)

Lemma sync_tasks_target r st :
  sync_tasks r st =
    match sync_target r with
    | Some s =>
        (Return (Tasks (fresh_tasks s), 200%Z),
         replaced s (fresh_tasks s) (registered s st))
    | None =>
        (Raise (if decide (authorized r)
                then HTTPException 400 "Missing sponsor_id"
                else HTTPException 401 "Invalid or missing API key"), st)
    end.
Proof.
  unfold sync_target. destruct (decide (authorized r)) as [Hauth|Hauth].
  - destruct (truthy (json_data r !! "sponsor_id")) as [s|] eqn:Hs.
    + by apply sync_tasks_returns.
    + unfold sync_tasks. by apply sync_tasks_invalid.
  - unfold sync_tasks. by apply sync_tasks_unauthorized.
Qed.

Lemma filter_replaced_again s tasks (store : list task) :
  (∀ t, t ∈ tasks → sponsor_id t = s) →
  filter (λ t, sponsor_id t ≠ s)
    (filter (λ t, sponsor_id t ≠ s) store ++ tasks) =
  filter (λ t, sponsor_id t ≠ s) store.
Proof.
  intros Hscoped. rewrite filter_app, (filter_none _ tasks), app_nil_r.
  - by apply list_filter_filter_l.
  - intros t Ht Hne. by apply Hne, Hscoped.
Qed.

(** X1: a request without the right API key is answered with the 401 abort
    by each of the three handlers, whatever else it carries, and leaves the
    task store and the registered set as they were; the key is checked before
    the body is looked at. *)
Theorem unauthorized_rejected (r : request) (st : state) :
  headers r !! "X-API-KEY" ≠ Some API_KEY →
  let denied := (Raise (HTTPException 401 "Invalid or missing API key"), st) in
  sync_tasks r st = denied ∧
  list_tasks r st = denied ∧
  update_task_by_fields r st = denied.
Proof.
  intros Hkey denied. split; [|split].
  - unfold sync_tasks. by apply sync_tasks_unauthorized.
  - by apply list_tasks_unauthorized.
  - by apply update_task_by_fields_unauthorized.
Qed.

Lemma unauthorized_rejected_witness :
  let r := {| headers := {[ "X-API-KEY" := "guess" ]};
              get_json := Some {[ "sponsor_id" := "sponsor-abc" ]};
              args := ∅ |} in
  let denied :=
    (Raise (HTTPException 401 "Invalid or missing API key"), synced_abc) in
  sync_tasks r synced_abc = denied ∧
  list_tasks r synced_abc = denied ∧
  update_task_by_fields r synced_abc = denied.
Proof.
  apply (unauthorized_rejected
           {| headers := {[ "X-API-KEY" := "guess" ]};
              get_json := Some {[ "sponsor_id" := "sponsor-abc" ]};
              args := ∅ |} synced_abc).
  discriminate.
Defined.

(** *** Composing syncs and updates *)

Lemma assign_status_filter (P : task → Prop) `{!∀ t, Decision (P t)}
    sponsor src nm new_status store :
  (∀ t, P (set_status t new_status) ↔ P t) →
  filter P (assign_status sponsor src nm new_status store) =
  assign_status sponsor src nm new_status (filter P store).
Proof.
  intros HP. unfold assign_status. induction store as [|t store IH]; [done|].
  rewrite fmap_cons, !filter_cons, IH.
  destruct (decide (matches sponsor src nm t)) as [Hm|Hm].
  - destruct (decide (P t)) as [Ht|Ht].
    + rewrite decide_True by (by apply HP).
      by rewrite fmap_cons, decide_True.
    + by rewrite decide_False by (by rewrite HP).
  - destruct (decide (P t)) as [Ht|Ht]; [|done].
    by rewrite fmap_cons, decide_False.
Qed.

Lemma assign_status_other_sponsor sponsor src nm new_status store :
  filter (λ t, sponsor_id t ≠ sponsor)
    (assign_status sponsor src nm new_status store) =
  filter (λ t, sponsor_id t ≠ sponsor) store.
Proof.
  rewrite assign_status_filter by done.
  apply assign_status_no_match. rewrite Exists_exists.
  intros (t & [Hne _]%list_elem_of_filter & Hs & _). done.
Qed.

Lemma matches_assign_status sponsor src nm new_status store :
  Exists (matches sponsor src nm)
    (assign_status sponsor src nm new_status store) ↔
  Exists (matches sponsor src nm) store.
Proof.
  unfold assign_status. rewrite Exists_fmap.
  split; intros Hex; (eapply Exists_impl; [exact Hex|]);
    intros t; simpl; by case_decide.
Qed.

Lemma assign_status_again sponsor src nm new_status store :
  assign_status sponsor src nm new_status
    (assign_status sponsor src nm new_status store) =
  assign_status sponsor src nm new_status store.
Proof.
  unfold assign_status. rewrite <-list_fmap_compose.
  apply list_fmap_ext. intros _ t _. simpl.
  destruct (decide (matches sponsor src nm t)) as [Hm|Hm].
  - by rewrite decide_True.
  - by rewrite decide_False.
Qed.

(** The four ways an update ends, with the state it leaves. *)
Lemma update_task_by_fields_cases u st :
  snd (update_task_by_fields u st) = st ∨
  ∃ sponsor src nm new_status,
    authorized u ∧
    truthy (json_data u !! "sponsor_id") = Some sponsor ∧
    truthy (json_data u !! "source") = Some src ∧
    truthy (json_data u !! "name") = Some nm ∧
    truthy (json_data u !! "status") = Some new_status ∧
    snd (update_task_by_fields u st) =
      {| TASK_STORE :=
           assign_status sponsor src nm new_status (TASK_STORE st);
         SYNC_SPONSORS := SYNC_SPONSORS st |}.
Proof.
  destruct (decide (authorized u)) as [Hauth|Hauth];
    [|left; by rewrite update_task_by_fields_unauthorized].
  destruct (truthy (json_data u !! "sponsor_id")) as [sponsor|] eqn:H1,
           (truthy (json_data u !! "source")) as [src|] eqn:H2,
           (truthy (json_data u !! "name")) as [nm|] eqn:H3,
           (truthy (json_data u !! "status")) as [new_status|] eqn:H4;
    try (left; rewrite update_task_by_fields_invalid by (auto 6); done).
  right. exists sponsor, src, nm, new_status.
  by rewrite (update_task_by_fields_valid _ _ sponsor src nm new_status).
Qed.

(** X2: a deployed handler that does not return leaves the state exactly as
    it was: a sync that is refused registers no sponsor and replaces nothing,
    an update that is refused or matches no record assigns no status; and a
    listing never changes the state, whatever it answers. *)
Theorem handlers_fail_without_effect (r : request) (st : state) :
  ((∀ b, fst (sync_tasks r st) ≠ Return b) → snd (sync_tasks r st) = st) ∧
  snd (list_tasks r st) = st ∧
  ((∀ b, fst (update_task_by_fields r st) ≠ Return b) →
   snd (update_task_by_fields r st) = st).
Proof.
  split; [|split].
  - rewrite sync_tasks_target. destruct (sync_target r) as [s|]; [|done].
    intros Hfail. by destruct (Hfail (Tasks (fresh_tasks s), 200%Z)).
  - apply list_tasks_state.
  - destruct (update_task_by_fields_cases r st)
      as [Hsame|(sponsor & src & nm & new_status & Hauth & H1 & H2 & H3 & H4
                  & _)]; [done|].
    rewrite (update_task_by_fields_valid _ _ sponsor src nm new_status)
      by done.
    cbn [fst snd]. case_bool_decide as Hex.
    + intros Hfail. by destruct (Hfail (Updated true, 200%Z)).
    + intros _. rewrite assign_status_no_match by done. by destruct st.
Qed.

(** An update for a sponsor nobody synced is answered 404 and changes
    nothing. *)
Lemma handlers_fail_without_effect_witness :
  snd (update_task_by_fields
         (update_request "sponsor-xyz" "salesforce" "Finalize contract" "done")
         synced_abc) = synced_abc.
Proof.
  apply (handlers_fail_without_effect
           (update_request "sponsor-xyz" "salesforce" "Finalize contract"
              "done") synced_abc).
  intros b. discriminate.
Defined.

(** X3: a sync is idempotent: repeating a sync request right away gives the
    same answer and leaves the same task store and registered set as the
    first one did. *)
Theorem sync_tasks_idempotent (r : request) (st : state) :
  sync_tasks r (snd (sync_tasks r st)) = sync_tasks r st.
Proof.
  rewrite !sync_tasks_target. destruct (sync_target r) as [s|]; [|done].
  cbn [snd]. f_equal. unfold replaced, registered. cbn [TASK_STORE SYNC_SPONSORS].
  f_equal.
  - f_equal. apply filter_replaced_again, mocks_scoped.
  - by rewrite (assoc_L (∪)), union_idemp_L.
Qed.

(** X4: a status update does not survive the next sync of its sponsor: the
    sync of sponsor [s] after an update request for [s] answers and leaves
    the state exactly as the sync alone would have. *)
Theorem sync_discards_status_updates (u r : request) (st : state) (s : string) :
  truthy (json_data u !! "sponsor_id") = Some s → sync_target r = Some s →
  sync_tasks r (snd (update_task_by_fields u st)) = sync_tasks r st.
Proof.
  intros Hu Hr. rewrite !sync_tasks_target, Hr. f_equal.
  destruct (update_task_by_fields_cases u st)
    as [->|(sponsor & src & nm & new_status & _ & Hs & _ & _ & _ & ->)];
    [done|].
  rewrite Hu in Hs. injection Hs as <-.
  unfold replaced, registered. cbn [TASK_STORE SYNC_SPONSORS].
  by rewrite assign_status_other_sponsor.
Qed.

Lemma sync_discards_status_updates_witness :
  sync_tasks (sync_request "sponsor-abc")
    (snd (update_task_by_fields finalize_contract_done synced_abc)) =
  sync_tasks (sync_request "sponsor-abc") synced_abc.
Proof.
  apply (sync_discards_status_updates finalize_contract_done
           (sync_request "sponsor-abc") synced_abc "sponsor-abc").
  - reflexivity.
  - reflexivity.
Defined.

(** X5: an update is idempotent: repeating an update request right away
    gives the same answer and leaves the same state as the first one did. *)
Theorem update_task_by_fields_idempotent (u : request) (st : state) :
  update_task_by_fields u (snd (update_task_by_fields u st)) =
  update_task_by_fields u st.
Proof.
  destruct (update_task_by_fields_cases u st)
    as [Hsame|(sponsor & src & nm & new_status & Hauth & H1 & H2 & H3 & H4
                & Hst)].
  { by rewrite Hsame. }
  rewrite Hst.
  rewrite !(update_task_by_fields_valid _ _ sponsor src nm new_status) by done.
  cbn [TASK_STORE SYNC_SPONSORS].
  rewrite assign_status_again. f_equal.
  by rewrite (bool_decide_ext _ _ (matches_assign_status _ _ _ _ _)).
Qed.

Lemma sync_tasks_store r st :
  TASK_STORE (snd (sync_tasks r st)) =
    match sync_target r with
    | Some s =>
        filter (λ t, sponsor_id t ≠ s) (TASK_STORE st) ++ fresh_tasks s
    | None => TASK_STORE st
    end.
Proof. rewrite sync_tasks_target. by destruct (sync_target r). Qed.

Lemma sync_tasks_registered r st :
  SYNC_SPONSORS (snd (sync_tasks r st)) =
    match sync_target r with
    | Some s => {[ s ]} ∪ SYNC_SPONSORS st
    | None => SYNC_SPONSORS st
    end.
Proof. rewrite sync_tasks_target. by destruct (sync_target r). Qed.

Lemma filter_other_sponsors_comm a b (store : list task) :
  filter (λ t, sponsor_id t ≠ a) (filter (λ t, sponsor_id t ≠ b) store) =
  filter (λ t, sponsor_id t ≠ b) (filter (λ t, sponsor_id t ≠ a) store).
Proof.
  rewrite !list_filter_filter. apply list_filter_iff. intros t. tauto.
Qed.

(** X6: two syncs commute up to the order of the store: run in either order
    they leave the same registered set and the same records, so that every
    sponsor has the same records in the same relative order. *)
Theorem syncs_commute (r1 r2 : request) (st : state) :
  let st12 := snd (sync_tasks r2 (snd (sync_tasks r1 st))) in
  let st21 := snd (sync_tasks r1 (snd (sync_tasks r2 st))) in
  SYNC_SPONSORS st12 = SYNC_SPONSORS st21 ∧
  TASK_STORE st12 ≡ₚ TASK_STORE st21 ∧
  ∀ s, records_of s (TASK_STORE st12) = records_of s (TASK_STORE st21).
Proof.
  intros st12 st21. subst st12 st21.
  rewrite !sync_tasks_store, !sync_tasks_registered.
  destruct (sync_target r1) as [a|], (sync_target r2) as [b|]; try done.
  split; [|split].
  - rewrite !(assoc_L (∪)). f_equal. apply (comm_L (∪)).
  - destruct (decide (a = b)) as [->|Hab]; [done|].
    rewrite !filter_app.
    rewrite (filter_all _ (fresh_tasks a)), (filter_all _ (fresh_tasks b)).
    + rewrite filter_other_sponsors_comm, <-!(assoc_L (++)).
      f_equiv. apply Permutation_app_comm.
    + intros t ->%mocks_scoped. done.
    + intros t ->%mocks_scoped. done.
  - intros s. unfold fresh_tasks.
    rewrite !records_of_replaced by apply mocks_scoped.
    repeat case_decide; congruence.
Qed.

(** *** The periodic job *)

Lemma periodic_sync_loop_step s l st :
  periodic_sync_loop (s :: l) st =
  periodic_sync_loop l (replaced s (fresh_tasks s) st).
Proof.
  unfold periodic_sync_loop. by rewrite periodic_sync_loop_cons, fetch_mocks.
Qed.

Lemma periodic_sync_loop_returns l st :
  fst (periodic_sync_loop l st) = Return ().
Proof.
  revert st. induction l as [|s l IH]; intros st; [done|].
  by rewrite periodic_sync_loop_step.
Qed.

Lemma periodic_sync_loop_records l st s :
  records_of s (TASK_STORE (snd (periodic_sync_loop l st))) =
    if decide (s ∈ l) then fresh_tasks s else records_of s (TASK_STORE st).
Proof.
  revert st. induction l as [|s' l IH]; intros st.
  - rewrite decide_False; [done|]. apply not_elem_of_nil.
  - rewrite periodic_sync_loop_step, IH. cbn [replaced TASK_STORE].
    unfold fresh_tasks. rewrite records_of_replaced by apply mocks_scoped.
    destruct (decide (s ∈ l)) as [Hl|Hl].
    + rewrite decide_True; [done|]. by right.
    + destruct (decide (s = s')) as [->|Hne].
      * rewrite decide_True; [done|]. by left.
      * rewrite decide_False; [done|].
        intros [?|?]%elem_of_cons; done.
Qed.

(** X7: with the mock integrations the periodic job always completes; it
    leaves the registered set as it is, gives every registered sponsor the
    records of the integrations again, whatever had been updated, and leaves
    the records of every other sponsor alone; with nobody registered it does
    nothing.  The same holds for every order in which the snapshot is
    walked. *)
Theorem periodic_sync_refreshes_registered (st : state) :
  (∀ order,
     (∀ s, s ∈ order ↔ s ∈ SYNC_SPONSORS st) →
     ∃ st',
       periodic_sync_loop order st = (Return (), st') ∧
       SYNC_SPONSORS st' = SYNC_SPONSORS st ∧
       (∀ s, s ∈ SYNC_SPONSORS st →
             records_of s (TASK_STORE st') = fresh_tasks s) ∧
       (∀ s, s ∉ SYNC_SPONSORS st →
             records_of s (TASK_STORE st') = records_of s (TASK_STORE st))) ∧
  (∃ st',
     periodic_sync st = (Return (), st') ∧
     SYNC_SPONSORS st' = SYNC_SPONSORS st ∧
     (∀ s, s ∈ SYNC_SPONSORS st →
           records_of s (TASK_STORE st') = fresh_tasks s) ∧
     (∀ s, s ∉ SYNC_SPONSORS st →
           records_of s (TASK_STORE st') = records_of s (TASK_STORE st))) ∧
  (SYNC_SPONSORS st = ∅ → periodic_sync st = (Return (), st)).
Proof.
  assert (∀ order,
     (∀ s, s ∈ order ↔ s ∈ SYNC_SPONSORS st) →
     ∃ st',
       periodic_sync_loop order st = (Return (), st') ∧
       SYNC_SPONSORS st' = SYNC_SPONSORS st ∧
       (∀ s, s ∈ SYNC_SPONSORS st →
             records_of s (TASK_STORE st') = fresh_tasks s) ∧
       (∀ s, s ∉ SYNC_SPONSORS st →
             records_of s (TASK_STORE st') = records_of s (TASK_STORE st)))
    as Hloop.
  { intros order Horder. exists (snd (periodic_sync_loop order st)).
    split; [|split; [|split]].
    - rewrite <-(periodic_sync_loop_returns order st).
      by destruct (periodic_sync_loop order st).
    - apply periodic_sync_loop_sponsors.
    - intros s Hs. rewrite periodic_sync_loop_records.
      rewrite decide_True; [done|]. by apply Horder.
    - intros s Hs. rewrite periodic_sync_loop_records.
      rewrite decide_False; [done|]. by rewrite Horder. }
  split; [done|]. split.
  - apply Hloop. intros s. apply elem_of_elements.
  - intros Hempty. unfold periodic_sync, Engine.periodic_sync.
    by rewrite Hempty, elements_empty.
Qed.

Lemma periodic_sync_refreshes_registered_witness :
  ∃ st',
    periodic_sync_loop ["sponsor-abc"] updated_abc = (Return (), st') ∧
    SYNC_SPONSORS st' = SYNC_SPONSORS updated_abc ∧
    (∀ s, s ∈ SYNC_SPONSORS updated_abc →
          records_of s (TASK_STORE st') = fresh_tasks s) ∧
    (∀ s, s ∉ SYNC_SPONSORS updated_abc →
          records_of s (TASK_STORE st') =
          records_of s (TASK_STORE updated_abc)).
Proof.
  apply (proj1 (periodic_sync_refreshes_registered updated_abc)).
  intros s. change (SYNC_SPONSORS updated_abc)
    with ({[ "sponsor-abc" ]} ∪ (∅ : gset string)).
  rewrite elem_of_union, elem_of_singleton, list_elem_of_singleton.
  split; [by left|]. intros [?|[]%not_elem_of_empty]. done.
Defined.

(** *** What every reachable state satisfies *)

Lemma fresh_tasks_status s t : t ∈ fresh_tasks s → status t ≠ "".
Proof.
  revert t. apply Forall_forall. unfold fresh_tasks.
  repeat constructor; discriminate.
Qed.

Lemma fresh_tasks_keys s : NoDup (key <$> fresh_tasks s).
Proof.
  apply (NoDup_fmap_1 (λ k : string * string * string, (k.1.2, k.2))).
  rewrite <-list_fmap_compose.
  apply (bool_decide_unpack _). by vm_compute.
Qed.

Lemma filter_split_length {A} (P : A → Prop) `{!∀ x, Decision (P x)}
    (l : list A) :
  length l = length (filter P l) + length (filter (λ x, ¬ P x) l).
Proof.
  induction l as [|x l IH]; [done|]. rewrite !filter_cons.
  destruct (decide (P x)) as [Hx|Hx].
  - rewrite decide_False by tauto. simpl. by rewrite IH.
  - rewrite decide_True by done. simpl. rewrite IH. lia.
Qed.

Lemma consistent_initial : consistent ∅ [].
Proof.
  split; [apply not_elem_of_empty|]. split.
  { intros t Ht. by apply not_elem_of_nil in Ht. }
  split; [constructor|]. intros s Hs. by apply not_elem_of_empty in Hs.
Qed.

Lemma consistent_replace X store s :
  consistent X store → s ≠ "" →
  consistent ({[ s ]} ∪ X)
    (filter (λ t, sponsor_id t ≠ s) store ++ fresh_tasks s).
Proof.
  intros (Hempty & Hin & Hkeys & Hrec) Hs. split; [|split; [|split]].
  - rewrite elem_of_union, elem_of_singleton. intros [?|?]; done.
  - intros t [[_ Ht]%list_elem_of_filter|Ht]%elem_of_app.
    + destruct (Hin t Ht). split; [by apply elem_of_union_r|done].
    + split; [|by eapply fresh_tasks_status].
      apply elem_of_union_l, elem_of_singleton. by apply mocks_scoped.
  - rewrite fmap_app. apply NoDup_app. split; [|split].
    + eapply sublist_NoDup; [exact Hkeys|].
      apply fmap_sublist, sublist_filter.
    + intros k (t & -> & [Hne _]%list_elem_of_filter)%list_elem_of_fmap.
      intros (t' & Hk & Ht')%list_elem_of_fmap.
      apply Hne. apply mocks_scoped in Ht'. by injection Hk as -> _ _.
    + apply fresh_tasks_keys.
  - intros s' Hs'. unfold fresh_tasks at 1.
    rewrite records_of_replaced by apply mocks_scoped.
    case_decide as Heq; [by subst|].
    apply Hrec. apply elem_of_union in Hs' as [Hs'|Hs']; [|done].
    by apply elem_of_singleton in Hs'.
Qed.

Lemma consistent_assign X store sponsor src nm new_status :
  consistent X store → new_status ≠ "" →
  consistent X (assign_status sponsor src nm new_status store).
Proof.
  intros (Hempty & Hin & Hkeys & Hrec) Hnew. split; [done|]. split; [|split].
  - intros t' (t & -> & Ht)%list_elem_of_fmap. destruct (Hin t Ht).
    by case_decide.
  - replace (key <$> assign_status sponsor src nm new_status store)
      with (key <$> store); [done|].
    unfold assign_status. rewrite <-list_fmap_compose.
    apply list_fmap_ext. intros _ t _. simpl. by case_decide.
  - intros s Hs. rewrite <-(Hrec s Hs). unfold records_of.
    rewrite assign_status_filter by done.
    unfold assign_status. rewrite <-list_fmap_compose.
    apply list_fmap_ext. intros _ t _. simpl. by case_decide.
Qed.

Lemma consistent_length_replace X store s :
  consistent X store → s ≠ "" → length store = 6 * size X →
  length (filter (λ t, sponsor_id t ≠ s) store ++ fresh_tasks s) =
    6 * size ({[ s ]} ∪ X).
Proof.
  intros (Hempty & Hin & Hkeys & Hrec) Hs Hlen.
  rewrite length_app. change (length (fresh_tasks s)) with 6.
  pose proof (filter_split_length (λ t, sponsor_id t = s) store) as Hsplit.
  fold (records_of s store) in Hsplit.
  destruct (decide (s ∈ X)) as [HsX|HsX].
  - assert (length (records_of s store) = 6) as Hsix.
    { rewrite <-(length_fmap blank), (Hrec s HsX). by rewrite length_fmap. }
    replace ({[ s ]} ∪ X) with X; [lia|].
    symmetry. apply subseteq_union_1_L. by apply singleton_subseteq_l.
  - assert (records_of s store = []) as Hnone.
    { apply filter_none. intros t Ht Heq. apply HsX. rewrite <-Heq.
      by apply Hin. }
    rewrite Hnone in Hsplit. simpl in Hsplit.
    rewrite size_union by (by apply disjoint_singleton_l).
    rewrite size_singleton. lia.
Qed.

Lemma consistent_periodic_sync_loop l st :
  (∀ s, s ∈ l → s ∈ SYNC_SPONSORS st) →
  consistent (SYNC_SPONSORS st) (TASK_STORE st) ∧
  length (TASK_STORE st) = 6 * size (SYNC_SPONSORS st) →
  let st' := snd (periodic_sync_loop l st) in
  consistent (SYNC_SPONSORS st') (TASK_STORE st') ∧
  length (TASK_STORE st') = 6 * size (SYNC_SPONSORS st').
Proof.
  revert st. induction l as [|s l IH]; intros st Hl [Hcons Hlen]; [done|].
  cbn zeta. rewrite periodic_sync_loop_step.
  assert (s ∈ SYNC_SPONSORS st) as Hs by (apply Hl; by left).
  assert (s ≠ "") as Hne by (intros ->; by destruct Hcons).
  assert ({[ s ]} ∪ SYNC_SPONSORS st = SYNC_SPONSORS st) as Hsame
    by (by apply subseteq_union_1_L, singleton_subseteq_l).
  apply IH.
  - intros s' Hs'. apply Hl. by right.
  - cbn [replaced TASK_STORE SYNC_SPONSORS]. split; rewrite <-Hsame.
    + by apply consistent_replace.
    + by apply consistent_length_replace.
Qed.

Lemma reachable_consistent st :
  reachable st →
  consistent (SYNC_SPONSORS st) (TASK_STORE st) ∧
  length (TASK_STORE st) = 6 * size (SYNC_SPONSORS st).
Proof.
  induction 1 as [|r st _ [Hcons Hlen]|r st _ IH|u st _ [Hcons Hlen]
                  |order st _ IH Horder].
  - split; [apply consistent_initial|done].
  - rewrite sync_tasks_store, sync_tasks_registered.
    destruct (sync_target r) as [s|] eqn:Hs; [|done].
    assert (s ≠ "") as Hne.
    { unfold sync_target in Hs. case_decide; [|done].
      by apply truthy_Some in Hs as [_ ?]. }
    split; [by apply consistent_replace|by apply consistent_length_replace].
  - by rewrite list_tasks_state.
  - destruct (update_task_by_fields_cases u st)
      as [->|(sponsor & src & nm & new_status & _ & _ & _ & _ & Hnew & ->)];
      [done|].
    cbn [TASK_STORE SYNC_SPONSORS]. split.
    + apply consistent_assign; [done|]. by apply truthy_Some in Hnew as [_ ?].
    + unfold assign_status. by rewrite length_fmap.
  - apply consistent_periodic_sync_loop; [|done].
    intros s Hs. apply elem_of_elements. by rewrite <-Horder.
Qed.

Lemma run_all_reachable ops st : reachable st → reachable (run_all ops st).
Proof.
  revert st. induction ops as [|op ops IH]; intros st Hst; [done|].
  simpl. apply IH. destruct op as [r|r|r|]; simpl.
  - by apply reachable_sync.
  - by apply reachable_list.
  - by apply reachable_update.
  - by apply reachable_periodic.
Qed.

Lemma matches_key sponsor src nm t :
  matches sponsor src nm t ↔ key t = (sponsor, src, nm).
Proof.
  unfold matches, key. split.
  - by intros (-> & -> & ->).
  - by intros [= -> -> ->].
Qed.

Lemma keys_of_blank (l : list task) : key <$> (blank <$> l) = key <$> l.
Proof. rewrite <-list_fmap_compose. by apply list_fmap_ext. Qed.

Lemma NoDup_fmap_filter_length {A B} `{EqDecision B} (f : A → B) (k : B)
    (l : list A) :
  NoDup (f <$> l) → (length (filter (λ x, f x = k) l) ≤ 1)%nat.
Proof.
  induction l as [|x l IH]; [simpl; lia|].
  rewrite fmap_cons, NoDup_cons. intros [Hx Hl]. rewrite filter_cons.
  case_decide as Hk; [|by apply IH].
  rewrite filter_none; [done|].
  intros y Hy Hyk. apply Hx. rewrite Hk, <-Hyk. by apply list_elem_of_fmap_2.
Qed.

(** X8: in every reachable state each stored record belongs to a registered
    sponsor, so the periodic job covers the whole store, and neither an empty
    sponsor_id nor an empty status is ever registered or stored. *)
Theorem reachable_records_registered (st : state) :
  reachable st →
  ("" ∉ SYNC_SPONSORS st) ∧
  ∀ t, t ∈ TASK_STORE st →
       sponsor_id t ∈ SYNC_SPONSORS st ∧ sponsor_id t ≠ "" ∧ status t ≠ "".
Proof.
  intros [(Hempty & Hin & _ & _) _]%reachable_consistent.
  split; [done|]. intros t Ht. destruct (Hin t Ht) as [Hs Hstatus].
  split; [done|]. split; [|done]. intros Heq. by rewrite Heq in Hs.
Qed.

Lemma reachable_records_registered_witness :
  ("" ∉ SYNC_SPONSORS synced_abc) ∧
  ∀ t, t ∈ TASK_STORE synced_abc →
       sponsor_id t ∈ SYNC_SPONSORS synced_abc ∧ sponsor_id t ≠ "" ∧
       status t ≠ "".
Proof.
  apply (reachable_records_registered synced_abc).
  apply reachable_sync, reachable_initial.
Defined.

(** X9: in every reachable state a registered sponsor has exactly the six
    records of the integrations, in their order and differing at most in
    status, a sponsor that is not registered has none, and the store holds
    six records per registered sponsor. *)
Theorem reachable_six_records_per_sponsor (st : state) :
  reachable st →
  (∀ s, s ∈ SYNC_SPONSORS st →
        blank <$> records_of s (TASK_STORE st) = blank <$> fresh_tasks s ∧
        length (records_of s (TASK_STORE st)) = 6) ∧
  (∀ s, s ∉ SYNC_SPONSORS st → records_of s (TASK_STORE st) = []) ∧
  length (TASK_STORE st) = 6 * size (SYNC_SPONSORS st).
Proof.
  intros [(Hempty & Hin & _ & Hrec) Hlen]%reachable_consistent.
  split; [|split; [|done]].
  - intros s Hs. split; [by apply Hrec|].
    rewrite <-(length_fmap blank), (Hrec s Hs). by rewrite length_fmap.
  - intros s Hs. apply filter_none. intros t Ht Heq. apply Hs.
    rewrite <-Heq. by apply Hin.
Qed.

Lemma reachable_six_records_per_sponsor_witness :
  (∀ s, s ∈ SYNC_SPONSORS updated_abc →
        blank <$> records_of s (TASK_STORE updated_abc) =
          blank <$> fresh_tasks s ∧
        length (records_of s (TASK_STORE updated_abc)) = 6) ∧
  (∀ s, s ∉ SYNC_SPONSORS updated_abc →
        records_of s (TASK_STORE updated_abc) = []) ∧
  length (TASK_STORE updated_abc) = 6 * size (SYNC_SPONSORS updated_abc).
Proof.
  apply (reachable_six_records_per_sponsor updated_abc).
  apply reachable_update, reachable_sync, reachable_initial.
Defined.

(** X10: in every reachable state no two stored records share the key
    (sponsor_id, source, name), so the loop of an update assigns the status
    of at most one record. *)
Theorem reachable_keys_unique (st : state) :
  reachable st →
  NoDup (key <$> TASK_STORE st) ∧
  ∀ sponsor src nm,
    (length (filter (matches sponsor src nm) (TASK_STORE st)) ≤ 1)%nat.
Proof.
  intros [(_ & _ & Hkeys & _) _]%reachable_consistent. split; [done|].
  intros sponsor src nm.
  rewrite (list_filter_iff _ (λ t, key t = (sponsor, src, nm)))
    by apply matches_key.
  by apply NoDup_fmap_filter_length.
Qed.

Lemma reachable_keys_unique_witness :
  NoDup (key <$> TASK_STORE synced_abc) ∧
  ∀ sponsor src nm,
    (length (filter (matches sponsor src nm) (TASK_STORE synced_abc))
     ≤ 1)%nat.
Proof.
  apply (reachable_keys_unique synced_abc).
  apply reachable_sync, reachable_initial.
Defined.

(** X11: in a reachable state the answer to a well-formed update is decided
    by the registered set alone: it is the 200 exactly when the sponsor is
    registered and (source, name) names one of the integration records of
    that sponsor, and the 404 otherwise. *)
Theorem reachable_update_succeeds_iff (u : request) (st : state)
    (sponsor src nm new_status : string) :
  reachable st → authorized u →
  truthy (json_data u !! "sponsor_id") = Some sponsor →
  truthy (json_data u !! "source") = Some src →
  truthy (json_data u !! "name") = Some nm →
  truthy (json_data u !! "status") = Some new_status →
  let known := sponsor ∈ SYNC_SPONSORS st ∧
               (sponsor, src, nm) ∈ key <$> fresh_tasks sponsor in
  (fst (update_task_by_fields u st) = Return (Updated true, 200%Z) ↔ known) ∧
  (fst (update_task_by_fields u st) =
     Raise (HTTPException 404 "No matching task found") ↔ ¬ known).
Proof.
  intros [(_ & Hin & _ & Hrec) _]%reachable_consistent Hauth H1 H2 H3 H4 known.
  rewrite (update_task_by_fields_valid _ _ sponsor src nm new_status) by done.
  cbn [fst].
  assert (Exists (matches sponsor src nm) (TASK_STORE st) ↔ known) as Hiff.
  { subst known. rewrite Exists_exists. split.
    - intros (t & Ht & Hm). destruct (Hin t Ht) as [Hreg _].
      pose proof Hm as (Hs & _ & _). rewrite Hs in Hreg. split; [done|].
      rewrite <-keys_of_blank, <-(Hrec sponsor Hreg), keys_of_blank.
      apply matches_key in Hm as <-. apply list_elem_of_fmap_2.
      by apply list_elem_of_filter.
    - intros [Hreg Hk].
      rewrite <-keys_of_blank, <-(Hrec sponsor Hreg), keys_of_blank in Hk.
      apply list_elem_of_fmap in Hk as (t & Hk & [_ Ht]%list_elem_of_filter).
      exists t. split; [done|]. by apply matches_key. }
  case_bool_decide as Hex; split; split; try done.
  - intros _. by apply Hiff.
  - intros Hno. destruct Hno. by apply Hiff.
  - intros Hk. destruct Hex. by apply Hiff.
  - intros _ Hk. destruct Hex. by apply Hiff.
Qed.

Lemma reachable_update_succeeds_iff_witness :
  let known := "sponsor-abc" ∈ SYNC_SPONSORS synced_abc ∧
               ("sponsor-abc", "salesforce", "Finalize contract")
                 ∈ key <$> fresh_tasks "sponsor-abc" in
  (fst (update_task_by_fields finalize_contract_done synced_abc) =
     Return (Updated true, 200%Z) ↔ known) ∧
  (fst (update_task_by_fields finalize_contract_done synced_abc) =
     Raise (HTTPException 404 "No matching task found") ↔ ¬ known).
Proof.
  apply (reachable_update_succeeds_iff finalize_contract_done synced_abc
           "sponsor-abc" "salesforce" "Finalize contract" "done").
  - apply reachable_sync, reachable_initial.
  - reflexivity.
  - reflexivity.
  - reflexivity.
  - reflexivity.
  - reflexivity.
Defined.

(** *** Updates seen from the listing *)

Lemma assign_status_matched sponsor src nm new_status store t :
  t ∈ assign_status sponsor src nm new_status store →
  matches sponsor src nm t → status t = new_status.
Proof.
  intros (t0 & -> & _)%list_elem_of_fmap. by case_decide.
Qed.

Lemma blank_assign_status sponsor src nm new_status store :
  blank <$> assign_status sponsor src nm new_status store = blank <$> store.
Proof.
  unfold assign_status. rewrite <-list_fmap_compose.
  apply list_fmap_ext. intros _ t _. simpl. by case_decide.
Qed.

(** X12: an update that answers 200 is visible at once: the listing by the
    sponsor and the new status, run on the state the update leaves, returns
    every stored record under the key, and there is at least one; all it
    returns carry that sponsor and that status. *)
Theorem update_visible_in_listing (u : request) (st : state)
    (sponsor src nm new_status : string) :
  authorized u →
  truthy (json_data u !! "sponsor_id") = Some sponsor →
  truthy (json_data u !! "source") = Some src →
  truthy (json_data u !! "name") = Some nm →
  truthy (json_data u !! "status") = Some new_status →
  fst (update_task_by_fields u st) = Return (Updated true, 200%Z) →
  let st' := snd (update_task_by_fields u st) in
  ∃ listed,
    list_tasks
      (list_request (<[ "sponsor_id" := sponsor ]> {[ "status" := new_status ]}))
      st' = (Return (Tasks listed, 200%Z), st') ∧
    (∃ t, t ∈ listed ∧ matches sponsor src nm t) ∧
    (∀ t, t ∈ TASK_STORE st' → matches sponsor src nm t → t ∈ listed) ∧
    (∀ t, t ∈ listed → sponsor_id t = sponsor ∧ status t = new_status).
Proof.
  intros Hauth H1 H2 H3 H4.
  rewrite (update_task_by_fields_valid _ _ sponsor src nm new_status) by done.
  cbn [fst snd]. intros Hok.
  assert (Exists (matches sponsor src nm) (TASK_STORE st)) as Hex.
  { by case_bool_decide. }
  eexists. split.
  { rewrite list_tasks_authorized by apply authorized_list_request.
    cbn [list_request args TASK_STORE].
    rewrite lookup_insert_eq, lookup_insert_ne, lookup_singleton_eq by done.
    rewrite (proj2 (truthy_Some (Some sponsor) sponsor)),
            (proj2 (truthy_Some (Some new_status) new_status)).
    - reflexivity.
    - by apply truthy_Some in H4 as [_ ?].
    - by apply truthy_Some in H1 as [_ ?]. }
  assert (∀ t, t ∈ assign_status sponsor src nm new_status (TASK_STORE st) →
               matches sponsor src nm t →
               t ∈ filter (passes (Some sponsor) (Some new_status))
                     (assign_status sponsor src nm new_status (TASK_STORE st)))
    as Hlisted.
  { intros t Ht Hm. apply list_elem_of_filter. split; [|done].
    split; [by destruct Hm|by eapply assign_status_matched]. }
  split; [|split; [done|]].
  - apply matches_assign_status with (new_status := new_status) in Hex.
    apply Exists_exists in Hex as (t & Ht & Hm). exists t. auto.
  - by intros t [Hp _]%list_elem_of_filter.
Qed.

Lemma update_visible_in_listing_witness :
  ∃ listed,
    list_tasks
      (list_request (<[ "sponsor_id" := "sponsor-abc" ]> {[ "status" := "done" ]}))
      updated_abc = (Return (Tasks listed, 200%Z), updated_abc) ∧
    (∃ t, t ∈ listed ∧ matches "sponsor-abc" "salesforce" "Finalize contract" t) ∧
    (∀ t, t ∈ TASK_STORE updated_abc →
          matches "sponsor-abc" "salesforce" "Finalize contract" t →
          t ∈ listed) ∧
    (∀ t, t ∈ listed → sponsor_id t = "sponsor-abc" ∧ status t = "done").
Proof.
  apply (update_visible_in_listing finalize_contract_done synced_abc
           "sponsor-abc" "salesforce" "Finalize contract" "done").
  - reflexivity.
  - reflexivity.
  - reflexivity.
  - reflexivity.
  - reflexivity.
  - reflexivity.
Defined.

(** X13: whatever the request, an update changes nothing but statuses: the
    store keeps its length and order and every record its sponsor_id, source,
    name and due_date; the registered set is untouched; and the records of a
    sponsor other than the one the request names are left exactly as they
    were. *)
Theorem update_changes_statuses_only (u : request) (st : state) :
  let st' := snd (update_task_by_fields u st) in
  blank <$> TASK_STORE st' = blank <$> TASK_STORE st ∧
  SYNC_SPONSORS st' = SYNC_SPONSORS st ∧
  ∀ s, json_data u !! "sponsor_id" ≠ Some s →
       records_of s (TASK_STORE st') = records_of s (TASK_STORE st).
Proof.
  intros st'. subst st'.
  destruct (update_task_by_fields_cases u st)
    as [->|(sponsor & src & nm & new_status & _ & Hs & _ & _ & _ & ->)];
    [done|].
  cbn [TASK_STORE SYNC_SPONSORS].
  split; [apply blank_assign_status|]. split; [done|].
  intros s Hne. unfold records_of. rewrite assign_status_filter by done.
  apply assign_status_no_match. rewrite Exists_exists.
  intros (t & [Ht _]%list_elem_of_filter & Hm & _).
  apply Hne. apply truthy_Some in Hs as [-> _]. congruence.
Qed.

Lemma update_changes_statuses_only_witness :
  records_of "sponsor-xyz"
    (TASK_STORE (snd (update_task_by_fields finalize_contract_done
                        (snd (sync_tasks (sync_request "sponsor-xyz")
                                synced_abc))))) =
  records_of "sponsor-xyz"
    (TASK_STORE (snd (sync_tasks (sync_request "sponsor-xyz") synced_abc))).
Proof.
  apply (update_changes_statuses_only finalize_contract_done
           (snd (sync_tasks (sync_request "sponsor-xyz") synced_abc))).
  discriminate.
Defined.
